(** * merge_json_datasets.py: a model of the file selector, the line merger
      and the driver, with the properties of its specification.

    The script works on [pathlib.Path] values, on text files opened in
    text mode (UTF-8, universal newlines) and on the file system.  The
    embedding keeps these three layers apart:

    - [Text]: Python [str] values as lists of code points, with
      [str.strip] and the line iteration of a text-mode file;
    - [Paths]: [Path] values as their sequence of parts, with the ordering
      [sorted] uses on them;
    - [Script]: the file system as a store threaded through a state and
      exception monad, and the three functions of the script,
      [collect_files], [merge_jsonl] and [main].

    What the model takes from the platform and the interpreter:

    - POSIX conventions: the separator is [/], and a newline written in
      text mode reaches the file as a single line feed;
    - a regular file holds text: its content is what the UTF-8 decoder
      yields, and a file that cannot be decoded is not represented;
    - one canonical path names one file: [Path.resolve] tells whether two
      paths lead to the same file, and hard links are not represented;
    - [Path.resolve] and [Path.glob] are given with the environment, the
      latter in whatever order the system enumerates a directory;
    - symbolic links show in [Path.resolve]: a name that is no link leads
      to the entry of that name in the directory its parent leads to, and
      a link leads elsewhere, be it to a path where nothing is.  No part
      of a path is [..], and no link leads back to itself;
    - a system call fails for what the paths lead to, and for nothing
      else: the process may read, write and search whatever it meets, and
      there is room for what it writes;
    - a special file gives a reader the text the store says, or cannot be
      opened for reading; one that keeps its reader waiting for ever is
      not represented.  The special files of the model cannot be opened
      for writing: a terminal or [/dev/null] as the destination of a
      merge is not represented;
    - the lines of an input file are those it holds when it is opened, and
      the text written to the output reaches the file when the [with]
      block closes it.  For an input that is not the output itself this is
      exactly what a reader observes. *)

From Stdlib Require Import NArith.
From stdpp Require Import base option list sorting strings gmap pretty.

Set Default Proof Using "Type".

(** ** Text: Python strings, [strip], and line iteration *)

Module Text.

(** A [str] is a sequence of Unicode code points. *)
Abbreviation char := N (only parsing).
Abbreviation str := (list N) (only parsing).

Definition LF : char := 10.
Definition CR : char := 13.

(** [str.isspace] on one code point: the characters [str.strip] removes
    when called without argument. *)
Definition is_space (c : char) : bool :=
  ((9 <=? c) && (c <=? 13)          (* \t \n \v \f \r *)
   || (28 <=? c) && (c <=? 32)      (* FS GS RS US and the space *)
   || (c =? 133) || (c =? 160)      (* NEL, no-break space *)
   || (c =? 5760)                   (* U+1680 *)
   || (8192 <=? c) && (c <=? 8202)  (* U+2000 .. U+200A *)
   || (c =? 8232) || (c =? 8233)    (* line and paragraph separators *)
   || (c =? 8239) || (c =? 8287)    (* U+202F, U+205F *)
   || (c =? 12288))%N.              (* U+3000 *)

Fixpoint lstrip (s : str) : str :=
  match s with
  | [] => []
  | c :: s' => if is_space c then lstrip s' else s
  end.

Definition rstrip (s : str) : str := reverse (lstrip (reverse s)).

(** [line.strip()] *)
Definition strip (s : str) : str := rstrip (lstrip s).

(** Truth value of a [str]: [not stripped] holds for the empty string only. *)
Definition truthy (s : str) : bool :=
  match s with [] => false | _ :: _ => true end.

(** Universal newlines on input ([newline=None]): [\r\n] and a lone [\r]
    both reach the program as [\n]. *)
Fixpoint translate_newlines (s : str) : str :=
  match s with
  | [] => []
  | c :: s' =>
      if (c =? CR)%N then
        LF :: match s' with
              | d :: s'' =>
                  if (d =? LF)%N then translate_newlines s''
                  else translate_newlines s'
              | [] => []
              end
      else c :: translate_newlines s'
  end.

(** Cutting a text after each line feed; every line keeps its terminator and
    only the last one may lack it. *)
Fixpoint split_lines (s : str) : list str :=
  match s with
  | [] => []
  | c :: s' =>
      if (c =? LF)%N then [LF] :: split_lines s'
      else match split_lines s' with
           | [] => [[c]]
           | l :: ls => (c :: l) :: ls
           end
  end.

(** The lines [for line in infile] yields for a file holding [content]. *)
Definition readlines (content : str) : list str :=
  split_lines (translate_newlines content).

(** A line that survives the filter of [merge_jsonl]. *)
Definition nonblank (line : str) : Prop := strip line ≠ [].

Global Instance nonblank_dec line : Decision (nonblank line).
Proof. unfold nonblank. apply _. Defined.

(** Encoding of an ASCII literal, for examples. *)
Definition of_string (s : string) : str :=
  (λ a, N.of_nat (Ascii.nat_of_ascii a)) <$> String.list_ascii_of_string s.

End Text.

Import Text.

(** ** Paths: [pathlib.Path] values *)

Module Paths.

(** A [Path] is its tuple of parts: [Path("/a/b").parts = ("/", "a", "b")],
    [Path("//a/b").parts = ("//", "a", "b")],
    [Path("a/b").parts = ("a", "b")] and [Path(".").parts = ()].  Parts are
    UTF-8 strings, whose byte order is the code point order Python compares
    by.  The paths one directory scan yields all begin with the parts of
    the scanned directory, so that comparing them never sets an anchored
    path against a relative one. *)
Abbreviation Path := (list string) (only parsing).

(** The first part of an anchored path: [/], or [//] for a path that
    begins with exactly two slashes. *)
Definition is_root (a : string) : bool :=
  String.eqb a "/" || String.eqb a "//".

(** [path.parent]: the path without its final part; the root and the empty
    path are their own parent. *)
Definition parent (p : Path) : Path :=
  match p with
  | [] => []
  | [a] => if is_root a then p else []
  | _ => removelast p
  end.

(** [self.parent == self] *)
Definition is_anchor (p : Path) : bool := bool_decide (parent p = p).

(** [str(path)] *)
Definition path_str (p : Path) : string :=
  match p with
  | [] => "."
  | a :: rest =>
      if is_root a then a +:+ String.concat "/" rest
      else String.concat "/" p
  end.

(** [p < q] on paths of one flavour compares the part sequences the way
    Python compares lists: the first differing part decides, and a proper
    prefix is smaller. *)
Fixpoint path_ltb (p q : Path) : bool :=
  match p, q with
  | [], [] => false
  | [], _ :: _ => true
  | _ :: _, [] => false
  | a :: p', b :: q' => if String.eqb a b then path_ltb p' q' else String.ltb a b
  end.

(** What a sort that only asks [<] guarantees of two neighbours [p], [q] of
    its result: [q] is not smaller than [p]. *)
Definition path_le (p q : Path) : Prop := path_ltb q p = false.

Global Instance path_le_dec : RelDecision path_le.
Proof. intros p q. unfold path_le. apply _. Defined.

(** [sorted(paths)].  The ordering is total and identifies only equal
    paths, so the result does not depend on the sorting algorithm. *)
Definition sorted (l : list Path) : list Path :=
  merge_sort path_le l.

(** Order of the path strings, as [sorted(..., key=str)] would use. *)
Definition str_le (p q : Path) : Prop :=
  String.leb (path_str p) (path_str q) = true.

Global Instance str_le_dec : RelDecision str_le.
Proof. intros p q. unfold str_le. apply _. Defined.

End Paths.

Import Paths.

(** ** The file system and the script *)

Module Script.

(** What a canonical path names.  Special files (devices, FIFOs, sockets)
    carry no content here: what one gives to a reader is kept apart, in
    the [device_text] of the store. *)
Inductive node :=
  | Directory
  | RegularFile (content : str)
  | SpecialFile.

Global Instance node_eq_dec : EqDecision node.
Proof. solve_decision. Defined.

(** The system calls and prints a run performs, in order, with the paths as
    the script passed them. *)
Inductive event :=
  | EvGlob (directory : Path) (pattern : string)
  | EvMkdir (p : Path)
  | EvOpenWrite (p : Path)
  | EvOpenRead (p : Path)
  | EvPrint (line : string).

(** The store.  [nodes] is keyed by canonical path; [pending] holds, for
    each file open for writing, the text its buffered writer has accepted
    and not yet handed to the file.  [device_text k n] is the text the
    special file at the canonical path [k] gives to a reader that opens it
    after [n] operations of the run, if it can be opened for reading at
    all: a FIFO need not give twice the same.  The script has no way to
    change it. *)
Record World := mkWorld {
  nodes : gmap Path node;
  pending : gmap Path str;
  trace : list event;
  device_text : Path → nat → option str
}.

Definition set_nodes (f : gmap Path node → gmap Path node) (w : World)
    : World :=
  mkWorld (f (nodes w)) (pending w) (trace w) (device_text w).
Definition set_pending (f : gmap Path str → gmap Path str) (w : World)
    : World :=
  mkWorld (nodes w) (f (pending w)) (trace w) (device_text w).
Definition log (ev : event) (w : World) : World :=
  mkWorld (nodes w) (pending w) (trace w ++ [ev]) (device_text w).

Inductive exn :=
  | FileNotFoundError (p : Path)
  | FileExistsError (p : Path)
  | NotADirectoryError (p : Path)
  | IsADirectoryError (p : Path)
  | OSError (p : Path)
  | ValueError
  | SystemExit (msg : string).

Inductive result (A : Type) :=
  | Ok (a : A)
  | Raise (e : exn).
Global Arguments Ok {A} a.
Global Arguments Raise {A} e.

(** Computations that read and change the world and may raise. *)
Definition M (A : Type) : Type := World → World * result A.

Definition ret {A} (a : A) : M A := λ w, (w, Ok a).
Definition raise {A} (e : exn) : M A := λ w, (w, Raise e).
Definition bind {A B} (m : M A) (f : A → M B) : M B := λ w,
  match m w with
  | (w', Ok a) => f a w'
  | (w', Raise e) => (w', Raise e)
  end.
Definition get : M World := λ w, (w, Ok w).
Definition emit (ev : event) : M unit := λ w, (log ev w, Ok tt).
Definition modify (f : World → World) : M unit := λ w, (f w, Ok tt).

(** [try: m  except Exception as e: handler e] *)
Definition catch {A} (m : M A) (handler : exn → M A) : M A := λ w,
  match m w with
  | (w', Ok a) => (w', Ok a)
  | (w', Raise e) => handler e w'
  end.

(** [try: m  finally: cleanup] *)
Definition finally {A} (m : M A) (cleanup : World → World) : M A := λ w,
  let '(w', r) := m w in (cleanup w', r).

Global Instance M_ret : MRet M := @ret.
Global Instance M_bind : MBind M := λ A B f m, bind m f.

(** A [for] loop that carries the local variables its body updates. *)
Fixpoint for_each {A S} (l : list A) (body : S → A → M S) (s : S) : M S :=
  match l with
  | [] => ret s
  | x :: l' => s' ← body s x; for_each l' body s'
  end.

(** The part of the environment the run does not change: where a path
    leads once it is made absolute and its symbolic links are followed, and
    what a directory scan yields, in the order the system enumerates it. *)
Record Env := mkEnv {
  resolve : Path → Path;
  glob : Path → string → list Path
}.

Section script.

Context (env : Env).

Definition stat (w : World) (p : Path) : option node :=
  nodes w !! resolve env p.

(** [path.exists()], [path.is_dir()], [path.is_file()]: all follow links. *)
Definition path_exists (w : World) (p : Path) : bool :=
  bool_decide (is_Some (stat w p)).
Definition is_dir (w : World) (p : Path) : bool :=
  bool_decide (stat w p = Some Directory).
Definition is_file (w : World) (p : Path) : bool :=
  match stat w p with Some (RegularFile _) => true | _ => false end.

(** [p.is_symlink()], told from where the paths lead: a name that is no
    link leads to the entry of that name in the directory its parent leads
    to, a link leads elsewhere. *)
Definition is_link (p : Path) : bool :=
  match last p with
  | Some name =>
      negb (is_anchor p) &&
      bool_decide (resolve env p ≠ resolve env (parent p) ++ [name])
  | None => false
  end.

(** [os.path.lexists(p)]: the name is taken, be it by a link that leads
    nowhere. *)
Definition lexists (w : World) (p : Path) : bool :=
  is_link p || path_exists w p.

(** The directory in which a system call looks for, or makes, what [p]
    names: the directory of the target when [p] is a link. *)
Definition directory_of (p : Path) : Path :=
  if is_link p then parent (resolve env p) else parent p.

(** Whether the walk towards [q], which does not lead to a directory,
    stops at something that is no directory, rather than at a missing
    name.  A link that leads nowhere sends the walk to the directory of
    its target. *)
Fixpoint not_a_directory (ns : gmap Path node) (fuel : nat) (q : Path)
    : bool :=
  match ns !! resolve env q with
  | Some Directory => false
  | Some _ => true
  | None =>
      match fuel with
      | 0 => false
      | S fuel' =>
          if is_link q then not_a_directory ns fuel' (parent (resolve env q))
          else if is_anchor q then false
          else not_a_directory ns fuel' (parent q)
      end
  end.

(** The error of a system call on [p] that cannot get into the directory
    [q]: [ENOTDIR] or [ENOENT].  The walk is as long as [q] and as what
    [q] leads to. *)
Definition no_directory (w : World) (p q : Path) : exn :=
  if not_a_directory (nodes w) (length q + length (resolve env q)) q
  then NotADirectoryError p
  else FileNotFoundError p.

(** [os.mkdir(p)]: a name that is taken, even by a link that leads
    nowhere, is refused. *)
Definition os_mkdir (p : Path) : M unit :=
  emit (EvMkdir p);;
  w ← get;
  if lexists w p then raise (FileExistsError p)
  else
    match stat w (parent p) with
    | Some Directory => modify (set_nodes <[resolve env p := Directory]>)
    | _ => raise (no_directory w p (parent p))
    end.

(** The [except OSError] clause of [Path.mkdir] under [exist_ok=True]. *)
Definition unless_is_dir (p : Path) (e : exn) : M unit :=
  w ← get; if is_dir w p then ret tt else raise e.

(** [p.mkdir(parents=False, exist_ok=True)] *)
Definition mkdir_exist_ok (p : Path) : M unit :=
  catch (os_mkdir p) (λ e,
    match e with
    | FileNotFoundError _ => raise e
    | _ => unless_is_dir p e
    end).

(** [p.mkdir(parents=True, exist_ok=True)]: the method calls itself on
    [p.parent], at most once per part of [p]. *)
Fixpoint mkdir_parents (depth : nat) (p : Path) : M unit :=
  catch (os_mkdir p) (λ e,
    match e with
    | FileNotFoundError _ =>
        if is_anchor p then raise e
        else match depth with
             | 0 => raise e
             | S depth' => mkdir_parents depth' (parent p);; mkdir_exist_ok p
             end
    | _ => unless_is_dir p e
    end).

Definition mkdir (p : Path) : M unit := mkdir_parents (length p) p.

(** [p.open("w", encoding="utf-8")]: the file is created or cut to length
    zero at once.  A link is followed: a file that is missing is made
    where the link leads.  The special files of the model are those that
    cannot be opened for writing. *)
Definition open_write (p : Path) : M unit :=
  emit (EvOpenWrite p);;
  w ← get;
  let fresh :=
    modify (λ w, set_pending <[resolve env p := []]>
                   (set_nodes <[resolve env p := RegularFile []]> w)) in
  match stat w p with
  | Some Directory => raise (IsADirectoryError p)
  | Some SpecialFile => raise (OSError p)
  | Some (RegularFile _) => fresh
  | None =>
      match stat w (directory_of p) with
      | Some Directory => fresh
      | _ => raise (no_directory w p (directory_of p))
      end
  end.

(** [outfile.write(s)] *)
Definition write (p : Path) (s : str) : M unit :=
  w ← get;
  match pending w !! resolve env p with
  | Some buf => modify (set_pending <[resolve env p := buf ++ s]>)
  | None => raise ValueError
  end.

(** Closing hands the buffered text to the file. *)
Definition close (p : Path) (w : World) : World :=
  match pending w !! resolve env p with
  | Some buf =>
      set_pending (delete (resolve env p))
        (set_nodes <[resolve env p := RegularFile buf]> w)
  | None => w
  end.

(** [with p.open("w", encoding="utf-8") as outfile: body] *)
Definition with_open_write {A} (p : Path) (body : M A) : M A :=
  open_write p;; finally body (close p).

(** [with p.open("r", encoding="utf-8") as infile], returning the lines
    [for line in infile] goes through.  A special file gives what the
    store says it gives at this point of the run. *)
Definition open_read (p : Path) : M (list str) :=
  emit (EvOpenRead p);;
  w ← get;
  match stat w p with
  | Some (RegularFile content) => ret (readlines content)
  | Some Directory => raise (IsADirectoryError p)
  | Some SpecialFile =>
      match device_text w (resolve env p) (length (trace w)) with
      | Some content => ret (readlines content)
      | None => raise (OSError p)
      end
  | None => raise (no_directory w p (directory_of p))
  end.

(** *** [collect_files] *)

Definition collect_files (directory : Path) (pattern : string)
    (output_names : list Path) : M (list Path) :=
  let excluded : gset Path := list_to_set (resolve env <$> output_names) in
  emit (EvGlob directory pattern);;
  w ← get;
  let files :=
    filter (λ path, is_file w path ∧ resolve env path ∉ excluded)
           (sorted (glob env directory pattern)) in
  ret files.

(** *** [merge_jsonl] *)

(** The body of [for line in infile]. *)
Definition merge_line (output_path : Path) (lines_written : nat)
    (line : str) : M nat :=
  let stripped := strip line in
  if negb (truthy stripped) then ret lines_written
  else
    write output_path (stripped ++ [LF]);;
    ret (lines_written + 1).

(** The body of [for file_path in files]. *)
Definition merge_file (output_path : Path) (lines_written : nat)
    (file_path : Path) : M nat :=
  infile ← open_read file_path;
  for_each infile (merge_line output_path) lines_written.

Definition merge_jsonl (files : list Path) (output_path : Path) : M nat :=
  mkdir (parent output_path);;
  let lines_written := 0 in
  with_open_write output_path
    (for_each files (merge_file output_path) lines_written).

(** *** [parse_args] and [main] *)

Record Args := mkArgs {
  input_dir : Path;
  train_pattern : string;
  test_pattern : string;
  output_train : Path;
  output_test : Path
}.

(** The defaults of the command line. *)
Definition default_args : Args :=
  mkArgs ["json_output"] "*train*.json" "*test*.json"
         ["unified_train.json"] ["unified_test.json"].

Definition print (line : string) : M unit := emit (EvPrint line).

Definition merged_message (n_files : nat) (split : string)
    (output : Path) (count : nat) : string :=
  "Merged " +:+ pretty n_files +:+ " " +:+ split +:+ " files into "
    +:+ path_str output +:+ " (" +:+ pretty count +:+ " lines)".

Definition no_files_message (split pattern : string)
    (directory : Path) : string :=
  "No " +:+ split +:+ " files matched pattern '" +:+ pattern +:+ "' in "
    +:+ path_str directory.

Definition not_found_message (directory : Path) : string :=
  "Input directory not found: " +:+ path_str directory.

Definition main (args : Args) : M unit :=
  let input_dir := input_dir args in
  w ← get;
  if negb (path_exists w input_dir) || negb (is_dir w input_dir) then
    raise (SystemExit (not_found_message input_dir))
  else
    let output_paths := [output_train args; output_test args] in
    train_files ← collect_files input_dir (train_pattern args) output_paths;
    test_files ← collect_files input_dir (test_pattern args) output_paths;
    if bool_decide (train_files = []) then
      raise (SystemExit (no_files_message "train" (train_pattern args) input_dir))
    else if bool_decide (test_files = []) then
      raise (SystemExit (no_files_message "test" (test_pattern args) input_dir))
    else
      train_count ← merge_jsonl train_files (output_train args);
      test_count ← merge_jsonl test_files (output_test args);
      print (merged_message (length train_files) "train"
               (output_train args) train_count);;
      print (merged_message (length test_files) "test"
               (output_test args) test_count).

(** How the interpreter leaves the process: status 0 after a normal return,
    status 1 with the message on standard error after [SystemExit(msg)] or
    an uncaught exception. *)
Definition exit_status {A} (r : result A) : nat :=
  match r with Ok _ => 0 | Raise _ => 1 end.

Definition diagnostic {A} (r : result A) : option string :=
  match r with Raise (SystemExit msg) => Some msg | _ => None end.

(** *** What the specification says of a merge

    The filter and the output are described on the contents of the input
    files alone, with no reference to the loop that produces them. *)

(** Every line whose stripped form is not empty, as it is written. *)
Definition merged_lines (lines : list str) : str :=
  concat ((λ line, strip line ++ [LF]) <$> filter nonblank lines).

(** The lines of the files, in file order and each file's line order. *)
Definition all_lines (contents : list str) : list str :=
  concat (readlines <$> contents).

Definition merged_text (contents : list str) : str :=
  merged_lines (all_lines contents).

Definition count_nonblank (contents : list str) : nat :=
  length (filter nonblank (all_lines contents)).

(** [files] name regular files holding [contents], in this order. *)
Definition hold (w : World) (files : list Path)
    (contents : list str) : Prop :=
  Forall2 (λ file content, stat w file = Some (RegularFile content))
          files contents.

(** No input is the output under another name. *)
Definition apart (files : list Path) (output_path : Path)
    : Prop :=
  resolve env output_path ∉ resolve env <$> files.

(** [p], [p.parent], ... : the paths [p.mkdir(parents=True)] may visit. *)
Fixpoint ancestors (depth : nat) (p : Path) : list Path :=
  p :: match depth with
       | 0 => []
       | S depth' => ancestors depth' (parent p)
       end.

(** A directory that exists, or whose name is free below one that exists
    or can be made.  The name of a link that leads nowhere is not free. *)
Inductive creatable (ns : gmap Path node) : Path → Prop :=
  | creatable_here p :
      ns !! resolve env p = Some Directory → creatable ns p
  | creatable_below p :
      ns !! resolve env p = None → is_link p = false →
      creatable ns (parent p) → creatable ns p.

(** The directories [p.mkdir(parents=True)] goes through: [p] and, as long
    as the one just reached is missing, its parent. *)
Inductive on_the_way (ns : gmap Path node)
    : Path → Path → Prop :=
  | on_the_way_here p : on_the_way ns p p
  | on_the_way_above p q :
      ns !! resolve env p = None → on_the_way ns (parent p) q →
      on_the_way ns p q.

(** The destination can be opened for writing: its directory exists or can
    be made, and the path itself names a regular file, or its name is free
    (and then it is not one of the directories to be made). *)
Definition writable (w : World) (output_path : Path) : Prop :=
  creatable (nodes w) (parent output_path) ∧
  match stat w output_path with
  | Some (RegularFile _) => True
  | Some _ => False
  | None =>
      is_link output_path = false ∧
      (resolve env output_path ∉
         resolve env <$> ancestors (length (parent output_path))
                                   (parent output_path))
  end.

(** [w'] is [w] with some directories added at [keys]: what making the
    parents of a destination does to the store. *)
Definition grows (keys : list Path) (w w' : World) : Prop :=
  pending w' = pending w ∧
  ∀ k, nodes w' !! k = nodes w !! k ∨
       (nodes w !! k = None ∧ nodes w' !! k = Some Directory ∧ k ∈ keys).

(** Every file [m] opens for reading satisfies [P], however [m] ends. *)
Definition reads_only {A} (P : Path → Prop) (m : M A) : Prop :=
  ∀ w w' r, m w = (w', r) →
    ∃ evs, trace w' = trace w ++ evs ∧ ∀ p, EvOpenRead p ∈ evs → P p.

(** The pattern selects nothing: it has no match at all, or every match is
    something else than a regular file, or one of the excluded outputs. *)
Definition selects_nothing (w : World) (directory : Path)
    (pattern : string) (output_names : list Path) : Prop :=
  Forall (λ path, is_file w path = false ∨
                  resolve env path ∈ resolve env <$> output_names)
         (glob env directory pattern).

(** *** What a run does and what it leaves alone *)

(** [R] relates the world before [m] to the world after it, however [m]
    ends. *)
Definition steps {A} (R : World → World → Prop) (m : M A) : Prop :=
  ∀ w w' r, m w = (w', r) → R w w'.

(** The run added events that all satisfy [Q], and took none away. *)
Definition emits (Q : event → Prop) (w w' : World) : Prop :=
  ∃ evs, trace w' = trace w ++ evs ∧ Forall Q evs.

(** Apart from the file at [output_path], [w'] has what [w] has, and
    possibly directories at [keys] where [w] had nothing. *)
Definition others_kept (output_path : Path) (keys : list Path)
    (w w' : World) : Prop :=
  ∀ k, k ≠ resolve env output_path →
       nodes w' !! k = nodes w !! k ∨
       (nodes w !! k = None ∧ nodes w' !! k = Some Directory ∧ k ∈ keys).

(** The directories a merge into [output_path] may have to make. *)
Definition output_dirs (output_path : Path) : list Path :=
  ancestors (length (parent output_path)) (parent output_path).

(** The operations of a merge: making directories for the output, opening
    the output for writing, opening the given files for reading. *)
Definition merge_event (files : list Path) (output_path : Path)
    (ev : event) : Prop :=
  match ev with
  | EvMkdir p => p ∈ output_dirs output_path
  | EvOpenWrite p => p = output_path
  | EvOpenRead p => p ∈ files
  | EvGlob _ _ | EvPrint _ => False
  end.

(** A path that cannot be opened for reading: it names nothing, or a
    directory. *)
Definition unreadable (w : World) (p : Path) : Prop :=
  stat w p = None ∨ stat w p = Some Directory.


(** Two destinations that are not in each other's way: they are not the
    same file, and neither is one of the directories made for the other. *)
Definition separate (out1 out2 : Path) : Prop :=
  resolve env out1 ≠ resolve env out2 ∧
  (resolve env out1 ∉ resolve env <$> output_dirs out2) ∧
  (resolve env out2 ∉ resolve env <$> output_dirs out1).

(** Every exception [m] can end in satisfies [P]. *)
Definition raises {A} (P : exn → Prop) (m : M A) : Prop :=
  ∀ w w' e, m w = (w', Raise e) → P e.

(** The exceptions of the operating system and of the file objects, as
    opposed to the exits [main] asks for. *)
Definition not_exit (e : exn) : Prop :=
  match e with SystemExit _ => False | _ => True end.

Definition is_print (ev : event) : Prop :=
  match ev with EvPrint _ => True | _ => False end.

End script.

End Script.

Import Script.

(** ** A small installation, for the examples

    The working directory is [/work].  [json_output] holds two train files,
    a directory and a socket whose names match the train pattern, a link
    [train_latest.json] to an earlier train output, whose name matches
    both patterns, one test file, and two dataset directories [a] and
    [a-b] with a [part.json] each.  In the working directory itself a
    link [dangling] leads to [gone], and nothing is there. *)

Module Demo.

Definition cwd : Path := ["/"; "work"].

Definition absolute (p : Path) : Path :=
  match p with
  | [] => cwd
  | a :: _ => if is_root a then p else cwd ++ p
  end.

Definition demo_resolve (p : Path) : Path :=
  if decide (p = ["json_output"; "train_latest.json"])
  then cwd ++ ["unified_train.json"]
  else match p with
       | "dangling" :: rest => cwd ++ "gone" :: rest
       | _ => absolute p
       end.

(** The scan returns the entries as the directory happens to list them. *)
Definition demo_glob (d : Path) (pattern : string)
    : list Path :=
  if String.eqb pattern "*train*.json" then
    [d ++ ["train_1.json"]; d ++ ["train_latest.json"];
     d ++ ["train_sock.json"]; d ++ ["train_0.json"];
     d ++ ["train_old.json"]]
  else if String.eqb pattern "*test*.json" then
    [d ++ ["train_latest.json"]; d ++ ["test_a.json"]]
  else if String.eqb pattern "*/part.json" then
    [d ++ ["a-b"; "part.json"]; d ++ ["a"; "part.json"]]
  else [].

Definition demo_env : Env := mkEnv demo_resolve demo_glob.

Definition train_0 : str :=
  of_string "{a}" ++ [CR; LF] ++ of_string "   " ++ [LF] ++ of_string " {b}  ".
Definition train_1 : str := of_string "{c}" ++ [LF].
Definition test_a : str := [LF] ++ of_string "{t}" ++ [LF].
Definition stale : str :=
  of_string "{s1}" ++ [LF] ++ of_string "{s2}" ++ [LF] ++ of_string "{s3}"
    ++ [LF] ++ of_string "{s4}" ++ [LF] ++ of_string "{s5}" ++ [LF].

Definition demo_nodes : gmap Path node :=
  list_to_map
    [(["/"], Directory);
     (["/"; "work"], Directory);
     (["/"; "work"; "unified_train.json"], RegularFile stale);
     (["/"; "work"; "json_output"], Directory);
     (["/"; "work"; "json_output"; "train_0.json"], RegularFile train_0);
     (["/"; "work"; "json_output"; "train_1.json"], RegularFile train_1);
     (["/"; "work"; "json_output"; "train_old.json"], Directory);
     (["/"; "work"; "json_output"; "train_sock.json"], SpecialFile);
     (["/"; "work"; "json_output"; "test_a.json"], RegularFile test_a);
     (["/"; "work"; "json_output"; "a"], Directory);
     (["/"; "work"; "json_output"; "a"; "part.json"], RegularFile train_1);
     (["/"; "work"; "json_output"; "a-b"], Directory);
     (["/"; "work"; "json_output"; "a-b"; "part.json"], RegularFile train_1)].

(** The socket cannot be opened. *)
Definition demo_world : World := mkWorld demo_nodes ∅ [] (λ _ _, None).

Definition train_inputs : list Path :=
  [["json_output"; "train_0.json"]; ["json_output"; "train_1.json"]].

(** A destination two directories below the working directory, neither of
    which exists yet. *)
Definition deep_output : Path := ["merged"; "v1"; "train.json"].

(** A train file of white space only, beside the others. *)
Definition blank_text : str := of_string "  " ++ [LF; 9%N; CR; LF].

Definition blank_world : World :=
  set_nodes
    <[cwd ++ ["json_output"; "train_blank.json"] := RegularFile blank_text]>
    demo_world.

End Demo.

Import Demo.

(** * Facts about the model *)

(** ** Stripping and line splitting *)

Section text_facts.
Implicit Types (s t : str) (c : char).

Lemma lstrip_nil_inv s : lstrip s = [] → Forall (λ c, is_space c = true) s.
Proof.
  induction s as [|c s IH]; simpl; [constructor|].
  destruct (is_space c) eqn:Hc; [|discriminate].
  intros Hs. constructor; auto.
Qed.

Lemma lstrip_all_space s : Forall (λ c, is_space c = true) s → lstrip s = [].
Proof. induction 1 as [|c s Hc _ IH]; simpl; [done|]. by rewrite Hc. Qed.

Lemma lstrip_head s c t : lstrip s = c :: t → is_space c = false.
Proof.
  induction s as [|d s IH]; simpl; [done|].
  destruct (is_space d) eqn:Hd; [done|]. by intros [= <- _].
Qed.

Lemma lstrip_suffix s : lstrip s `suffix_of` s.
Proof.
  induction s as [|c s IH]; simpl; [done|].
  destruct (is_space c); [by apply suffix_cons_r | done].
Qed.

Lemma elem_of_lstrip s c : c ∈ lstrip s → c ∈ s.
Proof.
  intros Hc. destruct (lstrip_suffix s) as [k ->]. apply elem_of_app. by right.
Qed.

Lemma elem_of_rstrip s c : c ∈ rstrip s → c ∈ s.
Proof.
  unfold rstrip. rewrite elem_of_reverse. intros Hc%elem_of_lstrip.
  by apply elem_of_reverse.
Qed.

Lemma elem_of_strip s c : c ∈ strip s → c ∈ s.
Proof. unfold strip. by intros ?%elem_of_rstrip%elem_of_lstrip. Qed.

Lemma lstrip_snoc_space s c :
  is_space c = true →
  lstrip (s ++ [c]) = match lstrip s with [] => [] | _ => lstrip s ++ [c] end.
Proof.
  intros Hc. induction s as [|d s IH]; simpl; [by rewrite Hc|].
  destruct (is_space d); done.
Qed.

Lemma rstrip_snoc_space s c : is_space c = true → rstrip (s ++ [c]) = rstrip s.
Proof. intros Hc. unfold rstrip. rewrite reverse_snoc. simpl. by rewrite Hc. Qed.

Lemma strip_snoc_space s c : is_space c = true → strip (s ++ [c]) = strip s.
Proof.
  intros Hc. unfold strip. rewrite lstrip_snoc_space by done.
  destruct (lstrip s) eqn:Hs; [done|]. by rewrite rstrip_snoc_space.
Qed.

Lemma strip_nil_inv s : strip s = [] → Forall (λ c, is_space c = true) s.
Proof.
  unfold strip, rstrip. intros Hs.
  apply (f_equal reverse) in Hs. rewrite reverse_involutive in Hs.
  apply lstrip_nil_inv in Hs. rewrite Forall_reverse in Hs.
  destruct (lstrip s) as [|c t] eqn:Ht; [by apply lstrip_nil_inv|].
  apply lstrip_head in Ht. apply Forall_cons in Hs as [Hc _]. congruence.
Qed.

Lemma strip_all_space s : Forall (λ c, is_space c = true) s → strip s = [].
Proof. intros Hs. unfold strip. by rewrite lstrip_all_space. Qed.

Lemma strip_has_nonspace s :
  strip s ≠ [] → ∃ c, c ∈ strip s ∧ is_space c = false.
Proof.
  intros Hs. destruct (decide (Forall (λ c, is_space c = true) (strip s))) as [Hall|Hex].
  - unfold strip, rstrip in *.
    destruct (lstrip (reverse (lstrip s))) as [|c t] eqn:Ht; [done|].
    apply lstrip_head in Ht. rewrite reverse_cons in Hall.
    apply Forall_app in Hall as [_ [Hc _]%Forall_cons]. congruence.
  - apply not_Forall_Exists in Hex; [|apply _].
    apply Exists_exists in Hex as (c & Hc & Hsp). exists c. split; [done|].
    by apply not_true_is_false.
Qed.

(** A written line is not blank when read back. *)
Lemma nonblank_written s : strip s ≠ [] → nonblank (strip s ++ [LF]).
Proof.
  intros (c & Hc & Hsp)%strip_has_nonspace Hnil.
  apply strip_nil_inv in Hnil. rewrite Forall_forall in Hnil.
  specialize (Hnil c). rewrite Hnil in Hsp; [done|].
  apply elem_of_app. by left.
Qed.

Lemma translate_newlines_ind (P : str → Prop) :
  P [] →
  P [CR] →
  (∀ s, P s → P (CR :: LF :: s)) →
  (∀ d s, d ≠ LF → P (d :: s) → P (CR :: d :: s)) →
  (∀ c s, c ≠ CR → P s → P (c :: s)) →
  ∀ s, P s.
Proof.
  intros Hnil Hcr Hcrlf Hcrd Hc s.
  assert (∀ n s, length s ≤ n → P s) as Hall; [|by apply (Hall (length s))].
  clear s. induction n as [|n IH]; intros [|c s] Hlen; simpl in *; try done; try lia.
  destruct (decide (c = CR)) as [->|Hne]; [|apply Hc; [done|apply IH; lia]].
  destruct s as [|d s]; [done|].
  destruct (decide (d = LF)) as [->|Hd].
  - apply Hcrlf, IH. simpl in *. lia.
  - apply Hcrd; [done|]. apply IH. lia.
Qed.

Lemma translate_newlines_no_CR s : CR ∉ translate_newlines s.
Proof.
  induction s as [| |s IH|d s Hd IH|c s Hc IH] using translate_newlines_ind;
    simpl.
  - apply not_elem_of_nil.
  - by intros [=]%list_elem_of_singleton.
  - rewrite not_elem_of_cons. by split.
  - destruct (d =? LF)%N eqn:E; [by apply N.eqb_eq in E|].
    rewrite not_elem_of_cons. by split.
  - destruct (c =? CR)%N eqn:E; [by apply N.eqb_eq in E|].
    rewrite not_elem_of_cons. by split.
Qed.

Lemma translate_newlines_id s : CR ∉ s → translate_newlines s = s.
Proof.
  induction s as [|c s IH]; simpl; [done|].
  intros [Hc Hs]%not_elem_of_cons.
  destruct (c =? CR)%N eqn:E; [by apply N.eqb_eq in E|]. by rewrite IH.
Qed.

Lemma split_lines_terminated x rest :
  LF ∉ x → split_lines (x ++ LF :: rest) = (x ++ [LF]) :: split_lines rest.
Proof.
  induction x as [|c x IH]; simpl; [done|].
  intros [Hc Hx]%not_elem_of_cons.
  destruct (c =? LF)%N eqn:E; [by apply N.eqb_eq in E|]. by rewrite IH.
Qed.

Lemma split_lines_written {A} (f : A → str) (xs : list A) :
  Forall (λ x, LF ∉ f x) xs →
  split_lines (concat ((λ x, f x ++ [LF]) <$> xs)) = (λ x, f x ++ [LF]) <$> xs.
Proof.
  induction 1 as [|x xs Hx _ IH]; csimpl; [done|].
  rewrite <-app_assoc. csimpl. by rewrite split_lines_terminated, IH.
Qed.

Lemma concat_split_lines s : concat (split_lines s) = s.
Proof.
  induction s as [|c s IH]; simpl; [done|].
  destruct (c =? LF)%N eqn:E.
  - apply N.eqb_eq in E as ->. simpl. by rewrite IH.
  - destruct (split_lines s) as [|l ls]; simpl in *; by rewrite <-IH.
Qed.

Lemma elem_of_concat {A} (x : A) (ls : list (list A)) :
  x ∈ concat ls ↔ ∃ l, l ∈ ls ∧ x ∈ l.
Proof.
  rewrite list_elem_of_In, in_concat. by setoid_rewrite list_elem_of_In.
Qed.

Lemma split_lines_sub s l c : l ∈ split_lines s → c ∈ l → c ∈ s.
Proof.
  intros Hl Hc. rewrite <-(concat_split_lines s). apply elem_of_concat. eauto.
Qed.

(** A line is a run of characters other than the line feed, closed by a
    line feed unless the text ends first. *)
Lemma split_lines_shape s l :
  l ∈ split_lines s → ∃ body, (l = body ++ [LF] ∨ l = body) ∧ LF ∉ body.
Proof.
  revert l. induction s as [|c s IH]; intros l; simpl; [by intros ?%elem_of_nil|].
  destruct (c =? LF)%N eqn:E.
  - intros [->|Hl]%elem_of_cons; [|by apply IH].
    exists []. split; [by left|apply not_elem_of_nil].
  - apply N.eqb_neq in E.
    assert (∀ body, LF ∉ body → LF ∉ c :: body) as Hcons.
    { intros body Hbody. rewrite not_elem_of_cons. split; [congruence|done]. }
    destruct (split_lines s) as [|l0 ls].
    + intros ->%list_elem_of_singleton.
      exists [c]. split; [by right|apply Hcons, not_elem_of_nil].
    + intros [->|Hl]%elem_of_cons.
      * destruct (IH l0) as (body & Hl0 & Hbody); [by left|].
        exists (c :: body). split; [|by apply Hcons].
        destruct Hl0 as [-> | ->]; auto.
      * apply IH. by right.
Qed.

(** What [strip] leaves of a line read from a file holds no line break. *)
Lemma readlines_strip_clean content l :
  l ∈ readlines content → (LF ∉ strip l) ∧ (CR ∉ strip l).
Proof.
  unfold readlines. intros Hl. split.
  - destruct (split_lines_shape _ _ Hl) as (body & Hshape & Hbody).
    intros Hin. apply Hbody.
    destruct Hshape as [-> | ->]; [|by apply elem_of_strip].
    rewrite strip_snoc_space in Hin by done. by apply elem_of_strip.
  - intros Hin%elem_of_strip. apply (split_lines_sub _ _ _ Hl) in Hin.
    by apply translate_newlines_no_CR in Hin.
Qed.

End text_facts.

Section path_facts.
Implicit Types (a b c : string) (p q r d : Path).

Lemma string_ltb_lt a b : String.ltb a b = true ↔ (a ?= b)%string = Lt.
Proof. unfold String.ltb. destruct (a ?= b)%string; split; congruence. Qed.

Lemma string_leb_ltb a b : String.leb a b = negb (String.ltb b a).
Proof.
  unfold String.leb, String.ltb. rewrite (String.compare_antisym a b).
  by destruct (b ?= a)%string.
Qed.

Lemma string_compare_refl a : (a ?= a)%string = Eq.
Proof.
  induction a as [|x a IH]; simpl; [done|].
  unfold Ascii.compare. by rewrite N.compare_refl.
Qed.

Lemma string_ltb_irrefl a : String.ltb a a = false.
Proof. unfold String.ltb. by rewrite string_compare_refl. Qed.

Lemma string_ltb_asym a b : String.ltb a b = true → String.ltb b a = false.
Proof.
  unfold String.ltb. rewrite (String.compare_antisym a b).
  by destruct (b ?= a)%string.
Qed.

Lemma string_ltb_total a b : a ≠ b → String.ltb a b = false → String.ltb b a = true.
Proof.
  unfold String.ltb. rewrite (String.compare_antisym a b).
  destruct (b ?= a)%string eqn:E; simpl; try done.
  intros Hne. by apply String.compare_eq_iff in E.
Qed.

Lemma string_ltb_trans a b c :
  String.ltb a b = true → String.ltb b c = true → String.ltb a c = true.
Proof.
  intros Hab Hbc.
  destruct (decide (a = c)) as [->|Hne].
  { apply string_ltb_asym in Hab. congruence. }
  destruct (String.ltb a c) eqn:Hac; [done|].
  apply string_ltb_total in Hac; [|done].
  assert (String.le a b) as H1.
  { unfold String.le. rewrite string_leb_ltb, (string_ltb_asym _ _ Hab). done. }
  assert (String.le b c) as H2.
  { unfold String.le. rewrite string_leb_ltb, (string_ltb_asym _ _ Hbc). done. }
  assert (String.le a c) as H3 by (by etrans).
  unfold String.le in H3. rewrite string_leb_ltb, Hac in H3. done.
Qed.

Lemma path_ltb_irrefl p : path_ltb p p = false.
Proof. induction p as [|a p IH]; simpl; [done|]. by rewrite String.eqb_refl. Qed.

Lemma path_le_total_or p q : path_le p q ∨ path_le q p.
Proof.
  unfold path_le. revert q. induction p as [|a p IH]; intros [|b q]; simpl; auto.
  rewrite (String.eqb_sym b a).
  destruct (String.eqb_spec a b) as [->|Hne]; [apply IH|].
  destruct (String.ltb a b) eqn:E; [|by right].
  left. by apply string_ltb_asym.
Qed.

Lemma path_le_antisym_eq p q : path_le p q → path_le q p → p = q.
Proof.
  unfold path_le. revert q. induction p as [|a p IH]; intros [|b q]; simpl; try done.
  rewrite (String.eqb_sym b a).
  destruct (String.eqb_spec a b) as [->|Hne].
  - intros ??. f_equal. by apply IH.
  - intros Hba Hab. apply string_ltb_total in Hab; [congruence|done].
Qed.

Lemma path_le_trans_le p q r : path_le p q → path_le q r → path_le p r.
Proof.
  unfold path_le. revert q r.
  induction p as [|a p IH]; intros [|b q] [|c r]; simpl; try done.
  destruct (String.eqb_spec b a) as [Hba|Hba], (String.eqb_spec c b) as [Hcb|Hcb];
    subst.
  - rewrite String.eqb_refl. apply IH.
  - destruct (String.eqb_spec c a); [done|]. auto.
  - destruct (String.eqb_spec b a); [done|]. auto.
  - intros Hlt1 Hlt2.
    apply string_ltb_total in Hlt1; [|done]. apply string_ltb_total in Hlt2; [|done].
    pose proof (string_ltb_trans _ _ _ Hlt1 Hlt2) as Hac.
    destruct (String.eqb_spec c a) as [Hca|_].
    + subst. by rewrite string_ltb_irrefl in Hac.
    + by apply string_ltb_asym.
Qed.

Global Instance path_le_total : Total path_le.
Proof. intros p q. apply path_le_total_or. Qed.
Global Instance path_le_trans : Transitive path_le.
Proof. intros p q r. apply path_le_trans_le. Qed.
Global Instance path_le_antisym : AntiSymm (=) path_le.
Proof. intros p q. apply path_le_antisym_eq. Qed.

Lemma sorted_Sorted (l : list Path) : StronglySorted path_le (sorted l).
Proof. apply StronglySorted_merge_sort; apply _. Qed.

Lemma sorted_Permutation (l : list Path) : sorted l ≡ₚ l.
Proof. apply merge_sort_Permutation. Qed.

(** Whatever algorithm sorts the paths, the result is this list: there is
    one way only to put given paths in order. *)
Lemma sorted_unique (l l' : list Path) :
  l' ≡ₚ l → Sorted path_le l' → l' = sorted l.
Proof.
  intros Hperm Hsorted. apply (Sorted_unique path_le); [done| |].
  - apply Sorted_merge_sort. apply _.
  - by rewrite sorted_Permutation.
Qed.

(** The result of [sorted] depends on the elements only, not on the order
    they arrive in. *)
Lemma sorted_order_independent (l1 l2 : list Path) :
  l1 ≡ₚ l2 → sorted l1 = sorted l2.
Proof.
  intros Hperm. apply (StronglySorted_unique path_le); try apply sorted_Sorted.
  by rewrite !sorted_Permutation.
Qed.

Lemma StronglySorted_filter {A} (R : relation A) (P : A → Prop)
    `{!∀ x, Decision (P x)} (l : list A) :
  StronglySorted R l → StronglySorted R (filter P l).
Proof.
  induction 1 as [|x l Hl IH Hx]; [constructor|].
  rewrite filter_cons. destruct (decide (P x)); [|done].
  constructor; [done|]. rewrite Forall_forall in Hx |- *.
  intros y [_ Hy]%list_elem_of_filter. auto.
Qed.

Lemma StronglySorted_impl_elem {A} (R R' : relation A) (l : list A) :
  (∀ x y, x ∈ l → y ∈ l → R x y → R' x y) →
  StronglySorted R l → StronglySorted R' l.
Proof.
  intros Himpl Hl. induction Hl as [|x l Hl IH Hx]; constructor.
  - apply IH. intros ?? ??. apply Himpl; by right.
  - rewrite Forall_forall in Hx |- *. intros y Hy.
    apply Himpl; [by left|by right|auto].
Qed.

Lemma string_compare_prefix pre a b :
  (pre +:+ a ?= pre +:+ b)%string = (a ?= b)%string.
Proof.
  induction pre as [|x pre IH]; [done|].
  change (String x pre +:+ a) with (String x (pre +:+ a)).
  change (String x pre +:+ b) with (String x (pre +:+ b)).
  simpl. unfold Ascii.compare at 1. by rewrite N.compare_refl.
Qed.

Lemma string_app_assoc a b c : (a +:+ b) +:+ c = a +:+ b +:+ c.
Proof.
  induction a as [|x a IH]; [done|].
  change (String x a +:+ b) with (String x (a +:+ b)).
  change (String x (a +:+ b) +:+ c) with (String x ((a +:+ b) +:+ c)).
  by rewrite IH.
Qed.

Lemma string_concat_snoc sep x (l : list string) a :
  String.concat sep ((x :: l) ++ [a]) = String.concat sep (x :: l) +:+ sep +:+ a.
Proof.
  revert x. induction l as [|y l IH]; intros x; [done|].
  change (String.concat sep ((x :: y :: l) ++ [a]))
    with (x +:+ sep +:+ String.concat sep ((y :: l) ++ [a])).
  rewrite IH.
  change (String.concat sep (x :: y :: l))
    with (x +:+ sep +:+ String.concat sep (y :: l)).
  by rewrite !string_app_assoc.
Qed.

Lemma string_app_empty (s : string) : s +:+ "" = s.
Proof.
  induction s as [|c s IH]; [done|].
  change (String c s +:+ "") with (String c (s +:+ "")). by rewrite IH.
Qed.

Lemma path_str_snoc d : ∃ pre, ∀ a, path_str (d ++ [a]) = pre +:+ a.
Proof.
  destruct d as [|x d].
  { exists "". intros a.
    change (path_str ([] ++ [a]))
      with (if is_root a then a +:+ "" else a).
    destruct (is_root a); [apply string_app_empty|done]. }
  destruct (is_root x) eqn:Hx.
  - destruct d as [|y d].
    + exists x. intros a. simpl. by rewrite Hx.
    + exists (x +:+ String.concat "/" (y :: d) +:+ "/"). intros a.
      change (path_str ((x :: y :: d) ++ [a]))
        with (if is_root x then x +:+ String.concat "/" ((y :: d) ++ [a])
              else String.concat "/" ((x :: y :: d) ++ [a])).
      rewrite Hx, string_concat_snoc. by rewrite !string_app_assoc.
  - exists (String.concat "/" (x :: d) +:+ "/"). intros a.
    change (path_str ((x :: d) ++ [a]))
      with (if is_root x then x +:+ String.concat "/" (d ++ [a])
            else String.concat "/" ((x :: d) ++ [a])).
    rewrite Hx.
    rewrite (string_concat_snoc "/" x d a). by rewrite !string_app_assoc.
Qed.

Lemma path_ltb_snoc d a b : path_ltb (d ++ [a]) (d ++ [b]) = String.ltb a b.
Proof.
  induction d as [|x d IH]; simpl.
  - destruct (String.eqb_spec a b) as [->|]; [by rewrite string_ltb_irrefl|done].
  - by rewrite String.eqb_refl.
Qed.

(** Two entries of one directory compare as their path strings do. *)
Lemma path_le_str_le_sibling d a b :
  path_le (d ++ [a]) (d ++ [b]) ↔ str_le (d ++ [a]) (d ++ [b]).
Proof.
  unfold path_le, str_le. rewrite path_ltb_snoc.
  destruct (path_str_snoc d) as [pre Hpre]. rewrite !Hpre.
  unfold String.leb. rewrite string_compare_prefix. fold (String.leb a b).
  rewrite string_leb_ltb. by destruct (String.ltb b a).
Qed.

End path_facts.

(** ** Running the script *)

Ltac run :=
  unfold mbind, M_bind, bind, mret, M_ret, ret, get, emit, modify, raise,
    catch, finally; simpl.

Section run_facts.
Context (env : Env).
Implicit Types (w : World) (p out : Path).

Lemma set_pending_id w k buf :
  pending w !! k = Some buf → set_pending <[k := buf]> w = w.
Proof. intros Hk. destruct w. unfold set_pending. simpl in *. by rewrite insert_id. Qed.

Lemma set_pending_twice w k buf buf' :
  set_pending <[k := buf']> (set_pending <[k := buf]> w) = set_pending <[k := buf']> w.
Proof. destruct w. unfold set_pending. simpl. by rewrite insert_insert_eq. Qed.

Lemma merged_lines_app l1 l2 :
  merged_lines (l1 ++ l2) = merged_lines l1 ++ merged_lines l2.
Proof. unfold merged_lines. by rewrite filter_app, fmap_app, concat_app. Qed.

Lemma truthy_strip line : truthy (strip line) = bool_decide (nonblank line).
Proof.
  destruct (decide (nonblank line)) as [H|H].
  - rewrite bool_decide_eq_true_2 by done. unfold nonblank in H. by destruct (strip line).
  - rewrite bool_decide_eq_false_2 by done. unfold nonblank in H.
    destruct (strip line); [done|]. by destruct H.
Qed.

Lemma merge_line_run out n line w buf :
  pending w !! resolve env out = Some buf →
  merge_line env out n line w =
    if decide (nonblank line)
    then (set_pending <[resolve env out := buf ++ strip line ++ [LF]]> w, Ok (n + 1))
    else (w, Ok n).
Proof.
  intros Hbuf. unfold merge_line. cbv zeta. rewrite truthy_strip.
  destruct (decide (nonblank line)) as [Hline|Hline].
  - rewrite bool_decide_eq_true_2 by done. unfold write. run. by rewrite Hbuf.
  - by rewrite bool_decide_eq_false_2 by done.
Qed.

Lemma merge_lines_run out lines n w buf :
  pending w !! resolve env out = Some buf →
  for_each lines (merge_line env out) n w =
    (set_pending <[resolve env out := buf ++ merged_lines lines]> w,
     Ok (n + length (filter nonblank lines))).
Proof.
  revert n w buf. induction lines as [|line lines IH]; intros n w buf Hbuf.
  { simpl. run. rewrite app_nil_r, Nat.add_0_r. by rewrite set_pending_id. }
  cbn [for_each]. unfold mbind, M_bind, bind.
  rewrite (merge_line_run _ _ _ _ buf) by done.
  unfold merged_lines. rewrite filter_cons.
  destruct (decide (nonblank line)) as [Hline|Hline].
  - erewrite IH; [|apply lookup_insert_eq].
    rewrite set_pending_twice. csimpl.
    rewrite <-!app_assoc. do 2 f_equal. lia.
  - by erewrite IH.
Qed.

Lemma merge_file_run out file content n w buf :
  stat env w file = Some (RegularFile content) →
  pending w !! resolve env out = Some buf →
  merge_file env out n file w =
    (mkWorld (nodes w)
             (<[resolve env out := buf ++ merged_lines (readlines content)]> (pending w))
             (trace w ++ [EvOpenRead file])
             (device_text w),
     Ok (n + length (filter nonblank (readlines content)))).
Proof.
  intros Hfile Hbuf. unfold merge_file, open_read. run.
  unfold stat in *. simpl. rewrite Hfile. by erewrite merge_lines_run.
Qed.

Lemma hold_nodes w w' files contents :
  nodes w' = nodes w → hold env w files contents → hold env w' files contents.
Proof. unfold hold, stat. by intros ->. Qed.

Lemma merge_files_run out files contents n w buf :
  hold env w files contents →
  pending w !! resolve env out = Some buf →
  for_each files (merge_file env out) n w =
    (mkWorld (nodes w)
             (<[resolve env out := buf ++ merged_text contents]> (pending w))
             (trace w ++ (EvOpenRead <$> files))
             (device_text w),
     Ok (n + count_nonblank contents)).
Proof.
  revert contents n w buf.
  induction files as [|file files IH]; intros contents n w buf Hhold Hbuf.
  { apply Forall2_nil_inv_l in Hhold as ->. simpl. run.
    unfold merged_text, count_nonblank, all_lines, merged_lines. csimpl.
    rewrite !app_nil_r, Nat.add_0_r, insert_id by done. by destruct w. }
  apply Forall2_cons_inv_l in Hhold as (content & contents' & Hfile & Hrest & ->).
  cbn [for_each]. unfold mbind, M_bind, bind.
  erewrite merge_file_run by done.
  erewrite (IH contents'); [|by eapply hold_nodes|simpl; apply lookup_insert_eq].
  simpl. unfold merged_text, count_nonblank, all_lines. csimpl.
  rewrite merged_lines_app, filter_app, length_app, insert_insert_eq.
  rewrite <-!app_assoc. csimpl. do 2 f_equal. lia.
Qed.

Lemma grows_log keys ev w : grows keys w (log ev w).
Proof. split; [done|]. intros k. by left. Qed.

Lemma grows_trans keys1 keys2 keys w1 w2 w3 :
  keys1 ⊆ keys → keys2 ⊆ keys →
  grows keys1 w1 w2 → grows keys2 w2 w3 → grows keys w1 w3.
Proof.
  intros Hk1 Hk2 [Hp1 Hn1] [Hp2 Hn2]. split; [congruence|].
  intros k. destruct (Hn1 k) as [E1|(E1 & D1 & K1)], (Hn2 k) as [E2|(E2 & D2 & K2)].
  - left. congruence.
  - right. split_and!; [congruence|done|auto].
  - right. split_and!; [done|congruence|auto].
  - congruence.
Qed.

Lemma grows_Some keys w w' k x :
  grows keys w w' → nodes w !! k = Some x → nodes w' !! k = Some x.
Proof. intros [_ Hn] Hk. destruct (Hn k) as [E|(E & _)]; congruence. Qed.

Lemma parent_shorter p : parent p ≠ p → length (parent p) < length p.
Proof.
  destruct p as [|a [|b p]]; simpl; [done| |].
  - destruct (is_root a); [done|simpl; lia].
  - intros _. change (length (removelast (a :: b :: p)) < S (S (length p))).
    pose proof (app_removelast_last a (l := a :: b :: p)) as Hlast.
    apply (f_equal length) in Hlast; [|done].
    rewrite length_app in Hlast. simpl in *. lia.
Qed.

Lemma no_directory_nodes w w' p q :
  nodes w' = nodes w → no_directory env w' p q = no_directory env w p q.
Proof. unfold no_directory. by intros ->. Qed.

Lemma lexists_nodes w w' p :
  nodes w' = nodes w → lexists env w' p = lexists env w p.
Proof. unfold lexists, path_exists, stat. by intros ->. Qed.

Lemma lexists_false w p :
  stat env w p = None → is_link env p = false → lexists env w p = false.
Proof.
  intros Hp Hlink. unfold lexists, path_exists. by rewrite Hlink, Hp.
Qed.

Lemma lexists_false_inv w p :
  lexists env w p = false → stat env w p = None ∧ is_link env p = false.
Proof.
  unfold lexists, path_exists. intros [Hlink Hp]%orb_false_elim.
  split; [|done]. apply bool_decide_eq_false in Hp.
  destruct (stat env w p); [destruct Hp; eauto|done].
Qed.

Lemma lexists_true w p x : stat env w p = Some x → lexists env w p = true.
Proof.
  intros Hp. unfold lexists, path_exists. rewrite Hp.
  rewrite bool_decide_eq_true_2 by eauto. apply orb_true_r.
Qed.

Lemma os_mkdir_run p w :
  os_mkdir env p w =
    if lexists env w p then (log (EvMkdir p) w, Raise (FileExistsError p))
    else
      match stat env w (parent p) with
      | Some Directory =>
          (set_nodes <[resolve env p := Directory]> (log (EvMkdir p) w), Ok tt)
      | _ => (log (EvMkdir p) w, Raise (no_directory env w p (parent p)))
      end.
Proof.
  unfold os_mkdir. run.
  change (lexists env (log (EvMkdir p) w) p) with (lexists env w p).
  destruct (lexists env w p); [done|].
  change (stat env (log (EvMkdir p) w) (parent p)) with (stat env w (parent p)).
  by destruct (stat env w (parent p)) as [[]|].
Qed.

(** On the way to a directory that can be made, what is missing is a
    name, not a directory in the place of a file. *)
Lemma creatable_not_a_directory ns q fuel :
  creatable env ns q → not_a_directory env ns fuel q = false.
Proof.
  intros Hq. revert fuel.
  induction Hq as [q Hdir|q Hnone Hlink Hq IH]; intros fuel.
  - destruct fuel; simpl; by rewrite Hdir.
  - destruct fuel as [|fuel]; simpl; rewrite Hnone; [done|].
    rewrite Hlink. destruct (is_anchor q); [done|apply IH].
Qed.

Lemma creatable_no_directory w p q :
  creatable env (nodes w) q → no_directory env w p q = FileNotFoundError p.
Proof.
  intros Hq. unfold no_directory. by rewrite creatable_not_a_directory.
Qed.

Lemma mkdir_parents_unfold depth p :
  mkdir_parents env depth p =
    catch (os_mkdir env p) (λ e,
      match e with
      | FileNotFoundError _ =>
          if is_anchor p then raise e
          else match depth with
               | 0 => raise e
               | S depth' => mkdir_parents env depth' (parent p);; mkdir_exist_ok env p
               end
      | _ => unless_is_dir env p e
      end).
Proof. by destruct depth. Qed.

Lemma mkdir_exist_ok_ok p w :
  stat env w (parent p) = Some Directory →
  (stat env w p = None ∧ is_link env p = false) ∨
  stat env w p = Some Directory →
  ∃ w', mkdir_exist_ok env p w = (w', Ok tt) ∧
        stat env w' p = Some Directory ∧ grows [resolve env p] w w'.
Proof.
  intros Hpar Hp. unfold mkdir_exist_ok, catch. rewrite os_mkdir_run.
  destruct Hp as [[Hp Hlink]|Hp].
  - rewrite (lexists_false _ _ Hp Hlink), Hpar.
    eexists. split; [done|]. unfold stat in *. simpl.
    split; [apply lookup_insert_eq|]. split; [done|]. intros k. simpl.
    destruct (decide (k = resolve env p)) as [->|Hk].
    + right. rewrite lookup_insert_eq. split_and!; [done|done|set_solver].
    + left. by rewrite lookup_insert_ne.
  - rewrite (lexists_true _ _ _ Hp).
    unfold unless_is_dir. run. unfold is_dir, stat in *. simpl.
    rewrite bool_decide_eq_true_2 by done.
    eexists. split; [done|]. split; [done|]. apply grows_log.
Qed.

Lemma creatable_inv ns p :
  creatable env ns p →
  ns !! resolve env p = Some Directory ∨ ns !! resolve env p = None.
Proof. destruct 1; auto. Qed.

Lemma ancestors_head depth p : p ∈ ancestors depth p.
Proof. destruct depth; simpl; set_solver. Qed.

Lemma mkdir_parents_ok ns p :
  creatable env ns p →
  ∀ depth w, nodes w = ns → length p ≤ depth →
  ∃ w', mkdir_parents env depth p w = (w', Ok tt) ∧
        stat env w' p = Some Directory ∧
        grows (resolve env <$> ancestors depth p) w w' ∧
        ∀ q, on_the_way env ns p q → stat env w' q = Some Directory.
Proof.
  induction 1 as [p Hdir|p Hnone Hlink Hpar IH]; intros depth w Hns Hlen; subst ns.
  { rewrite mkdir_parents_unfold. unfold catch. rewrite os_mkdir_run.
    rewrite (lexists_true _ _ _ Hdir). unfold unless_is_dir. run.
    unfold is_dir, stat. simpl. rewrite bool_decide_eq_true_2 by done.
    eexists. split; [done|]. split; [done|]. split; [apply grows_log|].
    intros q Hq. inversion Hq; subst; [done|congruence]. }
  destruct (decide (parent p = p)) as [Hanchor|Hanchor].
  { rewrite Hanchor in IH. by apply IH. }
  rewrite mkdir_parents_unfold. unfold catch. rewrite os_mkdir_run.
  rewrite (lexists_false _ _ Hnone Hlink).
  assert (resolve env p ∈ resolve env <$> ancestors depth p) as Hhead.
  { apply list_elem_of_fmap_2, ancestors_head. }
  destruct (creatable_inv _ _ Hpar) as [Hp|Hp]; unfold stat at 1; rewrite Hp.
  - eexists. split; [done|]. unfold stat. simpl.
    split; [apply lookup_insert_eq|]. split; [split; [done|]|].
    + intros k. simpl.
      destruct (decide (k = resolve env p)) as [->|Hk].
      * right. by rewrite lookup_insert_eq.
      * left. by rewrite lookup_insert_ne.
    + intros q Hq. inversion Hq as [|? ? _ Hq']; subst; [apply lookup_insert_eq|].
      inversion Hq'; subst; [|congruence].
      rewrite lookup_insert_ne by congruence. done.
  - rewrite (creatable_no_directory _ _ _ Hpar).
    unfold is_anchor. rewrite bool_decide_eq_false_2 by done.
    pose proof (parent_shorter p Hanchor) as Hshort.
    destruct depth as [|depth]; [lia|].
    destruct (IH depth (log (EvMkdir p) w))
      as (w1 & Hrun1 & Hdir1 & Hgrow1 & Hway1); [done|lia|].
    unfold mbind, M_bind, bind. rewrite Hrun1.
    destruct (mkdir_exist_ok_ok p w1) as (w2 & Hrun2 & Hdir2 & Hgrow2); [done| |].
    { destruct Hgrow1 as [_ Hn]. unfold stat.
      destruct (Hn (resolve env p)) as [E|(_ & E & _)]; simpl in *;
        [left; split; [congruence|done]|right; congruence]. }
    rewrite Hrun2. eexists. split; [done|]. split; [done|]. split.
    + eapply (grows_trans _ _ _ w (log (EvMkdir p) w)); [| |apply grows_log|].
      { apply (list_subseteq_nil (A := Path)). }
      { reflexivity. }
      change (ancestors (S depth) p) with (p :: ancestors depth (parent p)).
      rewrite fmap_cons. eapply grows_trans; [| |done..].
      * apply list_subseteq_cons. reflexivity.
      * intros k ->%list_elem_of_singleton. by left.
    + intros q Hq. inversion Hq as [|? ? _ Hq']; subst; [done|].
      unfold stat. eapply grows_Some; [done|]. by apply Hway1.
Qed.

Lemma open_write_run out w :
  (∃ old, stat env w out = Some (RegularFile old)) ∨
  (stat env w out = None ∧ is_link env out = false ∧
   stat env w (parent out) = Some Directory) →
  open_write env out w =
    (mkWorld (<[resolve env out := RegularFile []]> (nodes w))
             (<[resolve env out := []]> (pending w))
             (trace w ++ [EvOpenWrite out])
             (device_text w),
     Ok tt).
Proof.
  unfold open_write, directory_of. run. unfold stat. simpl.
  intros [[old ->]|(-> & -> & ->)]; done.
Qed.

(** Where a merge leaves the world when its inputs can be read and its
    destination can be opened. *)
Lemma merge_jsonl_run files contents out w :
  hold env w files contents →
  apart env files out →
  writable env w out →
  ∃ w', merge_jsonl env files out w = (w', Ok (count_nonblank contents)) ∧
        stat env w' out = Some (RegularFile (merged_text contents)) ∧
        (∀ q, on_the_way env (nodes w) (parent out) q →
              stat env w' q = Some Directory) ∧
        pending w' !! resolve env out = None ∧
        ∀ k x, k ≠ resolve env out → nodes w !! k = Some x → nodes w' !! k = Some x.
Proof.
  intros Hhold Hapart [Hdir Hout].
  destruct (mkdir_parents_ok _ _ Hdir (length (parent out)) w)
    as (w1 & Hmk & Hdir1 & Hgrow & Hway); [done..|].
  assert ((∃ old, stat env w1 out = Some (RegularFile old)) ∨
          (stat env w1 out = None ∧ is_link env out = false ∧
           stat env w1 (parent out) = Some Directory))
    as Hopen.
  { unfold stat in *. destruct (nodes w !! resolve env out) as [[]|] eqn:Hk; try done.
    - left. eexists. by eapply grows_Some.
    - right. destruct Hout as [Hlink Hout]. split; [|done]. destruct Hgrow as [_ Hn].
      destruct (Hn (resolve env out)) as [E|(_ & _ & E)]; [congruence|done]. }
  assert (∀ q, stat env w1 q = Some Directory →
               resolve env q ≠ resolve env out) as Hne.
  { intros q Hq Heq. unfold stat in *. rewrite Heq in Hq.
    destruct Hopen as [[old E]|[E _]]; congruence. }
  set (w2 := mkWorld (<[resolve env out := RegularFile []]> (nodes w1))
                     (<[resolve env out := []]> (pending w1))
                     (trace w1 ++ [EvOpenWrite out])
                     (device_text w1)).
  assert (hold env w2 files contents) as Hhold2.
  { unfold hold, apart in *. revert Hapart.
    induction Hhold as [|file content files contents Hfile _ IH]; [constructor|].
    rewrite fmap_cons, not_elem_of_cons. intros [Hfo Hrest].
    constructor; [|by apply IH].
    unfold stat in *. simpl. rewrite lookup_insert_ne by done.
    by eapply grows_Some. }
  unfold merge_jsonl, mkdir, with_open_write, finally.
  unfold mbind, M_bind, bind. rewrite Hmk, (open_write_run _ _ Hopen).
  fold w2. erewrite (merge_files_run out files contents 0 w2 []);
    [|done|simpl; apply lookup_insert_eq].
  unfold close. simpl. rewrite lookup_insert_eq. simpl.
  eexists. split; [done|]. unfold stat. simpl.
  split; [apply lookup_insert_eq|]. split.
  { intros q Hq%Hway. rewrite !lookup_insert_ne by (symmetry; by apply Hne). done. }
  split; [apply lookup_delete_eq|].
  intros k x Hk Hx. rewrite !lookup_insert_ne by done. by eapply grows_Some.
Qed.

End run_facts.

(** ** What is read back from a merged file *)

Section merged_facts.
Implicit Types (contents : list str).

Lemma elem_of_all_lines contents line :
  line ∈ all_lines contents → ∃ content, content ∈ contents ∧ line ∈ readlines content.
Proof.
  unfold all_lines. rewrite elem_of_concat. intros (ls & Hls & Hline).
  apply list_elem_of_fmap in Hls as (content & -> & Hc). eauto.
Qed.

Lemma merged_lines_no_CR (lines : list str) :
  Forall (λ line, CR ∉ strip line) lines → CR ∉ merged_lines lines.
Proof.
  unfold merged_lines. induction 1 as [|line lines Hline _ IH]; [set_solver|].
  rewrite filter_cons. destruct (decide (nonblank line)); [|done].
  csimpl. rewrite !not_elem_of_app. split_and!; [done| |done].
  by intros [=]%list_elem_of_singleton.
Qed.

(** The lines of a merged text are the kept lines, each stripped and ended
    by one line feed. *)
Lemma readlines_merged_text contents :
  readlines (merged_text contents) =
    (λ line, strip line ++ [LF]) <$> filter nonblank (all_lines contents).
Proof.
  assert (Forall (λ line, (LF ∉ strip line) ∧ (CR ∉ strip line)) (all_lines contents))
    as Hclean.
  { apply Forall_forall. intros line (content & _ & Hline)%elem_of_all_lines.
    by eapply readlines_strip_clean. }
  unfold readlines, merged_text.
  rewrite translate_newlines_id.
  2:{ apply merged_lines_no_CR. eapply Forall_impl; [done|]. by intros ? [??]. }
  unfold merged_lines. apply (split_lines_written strip), Forall_forall.
  intros line [_ Hline]%list_elem_of_filter. rewrite Forall_forall in Hclean.
  by apply Hclean.
Qed.

Lemma merged_text_nonblank contents :
  Forall nonblank (readlines (merged_text contents)).
Proof.
  rewrite readlines_merged_text. apply Forall_fmap, Forall_forall.
  intros line [Hline _]%list_elem_of_filter. by apply nonblank_written.
Qed.

Lemma merged_text_length contents :
  length (readlines (merged_text contents)) = count_nonblank contents.
Proof. by rewrite readlines_merged_text, length_fmap. Qed.

End merged_facts.

(** ** The file selector *)

Section selector_facts.
Context (env : Env).
Implicit Types (w : World) (d p : Path) (outs : list Path).

Lemma collect_files_run d pattern outs w :
  collect_files env d pattern outs w =
    (log (EvGlob d pattern) w,
     Ok (filter (λ path, is_file env w path ∧
                         resolve env path ∉
                           (list_to_set (resolve env <$> outs) : gset Path))
                (sorted (glob env d pattern)))).
Proof. done. Qed.

Lemma elem_of_selection d pattern outs w p :
  p ∈ filter (λ path, is_file env w path ∧
                      resolve env path ∉
                        (list_to_set (resolve env <$> outs) : gset Path))
             (sorted (glob env d pattern)) ↔
  p ∈ glob env d pattern ∧ is_file env w p = true ∧
  resolve env p ∉ resolve env <$> outs.
Proof.
  rewrite list_elem_of_filter, sorted_Permutation, elem_of_list_to_set.
  rewrite Is_true_true. tauto.
Qed.

Lemma selects_nothing_run d pattern outs w :
  selects_nothing env w d pattern outs →
  collect_files env d pattern outs w = (log (EvGlob d pattern) w, Ok []).
Proof.
  intros Hnone. rewrite collect_files_run. do 2 f_equal.
  apply elem_of_nil_inv. intros p (Hp & Hfile & Hout)%elem_of_selection.
  unfold selects_nothing in Hnone. rewrite Forall_forall in Hnone.
  destruct (Hnone p Hp); [congruence|done].
Qed.

Lemma is_file_regular w p :
  is_file env w p = true ↔ ∃ content, stat env w p = Some (RegularFile content).
Proof.
  unfold is_file.
  destruct (stat env w p) as [[|content|]|]; split; try done; eauto;
    by intros [? [=]].
Qed.

End selector_facts.

(** ** What a run opens for reading *)

Section reads_facts.
Context (env : Env) (P : Path → Prop).

Lemma reads_only_quiet {A} (m : M A) :
  (∀ w w' r, m w = (w', r) → trace w' = trace w) → reads_only P m.
Proof.
  intros Hquiet w w' r Hrun. exists []. rewrite app_nil_r.
  split; [by eapply Hquiet|]. by intros p ?%elem_of_nil.
Qed.

Lemma reads_only_ret {A} (a : A) : reads_only P (mret a).
Proof. apply reads_only_quiet. by intros w w' r [= <- _]. Qed.

Lemma reads_only_raise {A} e : reads_only P (raise (A := A) e).
Proof. apply reads_only_quiet. by intros w w' r [= <- _]. Qed.

Lemma reads_only_modify f :
  (∀ w, trace (f w) = trace w) → reads_only P (modify f).
Proof. intros Hf. apply reads_only_quiet. intros w w' r [= <- _]. apply Hf. Qed.

Lemma reads_only_emit ev :
  (∀ p, ev = EvOpenRead p → P p) → reads_only P (emit ev).
Proof.
  intros Hev w w' r [= <- _]. exists [ev]. split; [done|].
  intros p Hp%list_elem_of_singleton. by apply Hev.
Qed.

Lemma reads_only_bind_run {A B} (m : M A) (f : A → M B) :
  reads_only P m →
  (∀ a w w', m w = (w', Ok a) → reads_only P (f a)) →
  reads_only P (m ≫= f).
Proof.
  intros Hm Hf w w' r. unfold mbind, M_bind, bind.
  destruct (m w) as [w1 [a|e]] eqn:Hrun; destruct (Hm _ _ _ Hrun) as (evs & Ht & Hevs).
  - intros Hrun2. destruct (Hf _ _ _ Hrun _ _ _ Hrun2) as (evs2 & Ht2 & Hevs2).
    exists (evs ++ evs2). split; [by rewrite Ht2, Ht, app_assoc|].
    intros p [?|?]%elem_of_app; auto.
  - intros [= <- <-]. eauto.
Qed.

Lemma reads_only_bind {A B} (m : M A) (f : A → M B) :
  reads_only P m → (∀ a, reads_only P (f a)) → reads_only P (m ≫= f).
Proof. intros Hm Hf. apply reads_only_bind_run; auto. Qed.

Lemma reads_only_get {A} (f : World → M A) :
  (∀ w, reads_only P (f w)) → reads_only P (get ≫= f).
Proof.
  intros Hf. apply reads_only_bind; [|done].
  apply reads_only_quiet. by intros w w' r [= <- _].
Qed.

Lemma reads_only_catch {A} (m : M A) (handler : exn → M A) :
  reads_only P m → (∀ e, reads_only P (handler e)) →
  reads_only P (catch m handler).
Proof.
  intros Hm Hh w w' r. unfold catch.
  destruct (m w) as [w1 [a|e]] eqn:Hrun; destruct (Hm _ _ _ Hrun) as (evs & Ht & Hevs).
  - intros [= <- <-]. eauto.
  - intros Hrun2. destruct (Hh _ _ _ _ Hrun2) as (evs2 & Ht2 & Hevs2).
    exists (evs ++ evs2). split; [by rewrite Ht2, Ht, app_assoc|].
    intros p [?|?]%elem_of_app; auto.
Qed.

Lemma reads_only_finally {A} (m : M A) (cleanup : World → World) :
  reads_only P m → (∀ w, trace (cleanup w) = trace w) →
  reads_only P (finally m cleanup).
Proof.
  intros Hm Hc w w' r. unfold finally.
  destruct (m w) as [w1 r1] eqn:Hrun. destruct (Hm _ _ _ Hrun) as (evs & Ht & Hevs).
  intros [= <- <-]. exists evs. by rewrite Hc.
Qed.

Lemma reads_only_for_each {A S} (l : list A) (body : S → A → M S) (s : S) :
  (∀ s x, x ∈ l → reads_only P (body s x)) →
  reads_only P (for_each l body s).
Proof.
  revert s. induction l as [|x l IH]; intros s Hbody; simpl.
  - apply reads_only_ret.
  - apply reads_only_bind; [apply Hbody; by left|].
    intros s'. apply IH. intros ???. apply Hbody. by right.
Qed.

Lemma trace_set_nodes f w : trace (set_nodes f w) = trace w.
Proof. done. Qed.
Lemma trace_set_pending f w : trace (set_pending f w) = trace w.
Proof. done. Qed.

Lemma trace_close p w : trace (close env p w) = trace w.
Proof.
  unfold close. by destruct (pending w !! resolve env p).
Qed.

Lemma reads_only_unless_is_dir p e : reads_only P (unless_is_dir env p e).
Proof.
  apply reads_only_get. intros w.
  destruct (is_dir env w p); [apply reads_only_ret|apply reads_only_raise].
Qed.

Lemma reads_only_os_mkdir p : reads_only P (os_mkdir env p).
Proof.
  apply reads_only_bind; [by apply reads_only_emit|]. intros _.
  apply reads_only_get. intros w.
  destruct (lexists env w p); [apply reads_only_raise|].
  destruct (stat env w (parent p)) as [[]|];
    try apply reads_only_raise. by apply reads_only_modify.
Qed.

Lemma reads_only_mkdir_exist_ok p : reads_only P (mkdir_exist_ok env p).
Proof.
  apply reads_only_catch; [apply reads_only_os_mkdir|].
  intros []; try apply reads_only_unless_is_dir. apply reads_only_raise.
Qed.

Lemma reads_only_mkdir_parents depth p :
  reads_only P (mkdir_parents env depth p).
Proof.
  revert p. induction depth as [|depth IH]; intros p; simpl;
    (apply reads_only_catch; [apply reads_only_os_mkdir|]);
    intros []; try apply reads_only_unless_is_dir;
    destruct (is_anchor p); try apply reads_only_raise.
  apply reads_only_bind; [apply IH|]. intros _. apply reads_only_mkdir_exist_ok.
Qed.

Lemma reads_only_open_write p : reads_only P (open_write env p).
Proof.
  apply reads_only_bind; [by apply reads_only_emit|]. intros _.
  apply reads_only_get. intros w.
  destruct (stat env w p) as [[]|]; try apply reads_only_raise;
    try by apply reads_only_modify.
  destruct (stat env w (directory_of env p)) as [[]|];
    try apply reads_only_raise.
  by apply reads_only_modify.
Qed.

Lemma reads_only_merge_line out n line :
  reads_only P (merge_line env out n line).
Proof.
  unfold merge_line. destruct (negb (truthy (strip line))); [apply reads_only_ret|].
  apply reads_only_bind; [|intros _; apply reads_only_ret].
  apply reads_only_get. intros w.
  destruct (pending w !! resolve env out); [|apply reads_only_raise].
  by apply reads_only_modify.
Qed.

Lemma reads_only_merge_file out n file :
  P file → reads_only P (merge_file env out n file).
Proof.
  intros Hfile. apply reads_only_bind.
  - apply reads_only_bind; [apply reads_only_emit; by intros ? [= <-]|]. intros _.
    apply reads_only_get. intros w.
    destruct (stat env w file) as [[]|]; try apply reads_only_raise;
      [apply reads_only_ret|].
    destruct (device_text w (resolve env file) _);
      [apply reads_only_ret|apply reads_only_raise].
  - intros infile. apply reads_only_for_each. intros ???.
    apply reads_only_merge_line.
Qed.

(** A merge opens for reading the files it is given, and no other. *)
Lemma reads_only_merge_jsonl files out :
  Forall P files → reads_only P (merge_jsonl env files out).
Proof.
  intros Hfiles. apply reads_only_bind; [apply reads_only_mkdir_parents|].
  intros _. apply reads_only_bind; [apply reads_only_open_write|]. intros _.
  apply reads_only_finally; [|apply trace_close].
  apply reads_only_for_each. intros n file Hfile.
  apply reads_only_merge_file. rewrite Forall_forall in Hfiles. auto.
Qed.

Lemma reads_only_collect_files d pattern outs :
  reads_only P (collect_files env d pattern outs).
Proof.
  apply reads_only_bind; [by apply reads_only_emit|]. intros _.
  apply reads_only_get. intros w. apply reads_only_ret.
Qed.

End reads_facts.

(** However [main] ends, it has opened for reading no path that leads to
    one of its two outputs. *)
Lemma reads_only_main env args :
  reads_only
    (λ p, resolve env p ≠ resolve env (output_train args) ∧
          resolve env p ≠ resolve env (output_test args))
    (main env args).
Proof.
  set (P := λ p, resolve env p ≠ resolve env (output_train args) ∧
                 resolve env p ≠ resolve env (output_test args)).
  assert (∀ pattern w w' files,
    collect_files env (input_dir args) pattern
      [output_train args; output_test args] w = (w', Ok files) →
    Forall P files) as Hsel.
  { intros pattern w w' files. rewrite collect_files_run. intros Hrun.
    injection Hrun as _ <-. apply Forall_forall. intros p Hp.
    apply (elem_of_selection env _ _ [output_train args; output_test args])
      in Hp as (_ & _ & Hp).
    rewrite !fmap_cons, !not_elem_of_cons in Hp. split; tauto. }
  apply reads_only_get. intros w.
  destruct (negb _ || negb _); [apply reads_only_raise|].
  apply reads_only_bind_run; [apply reads_only_collect_files|].
  intros train_files w1 w2 Htrain%Hsel.
  apply reads_only_bind_run; [apply reads_only_collect_files|].
  intros test_files w3 w4 Htest%Hsel.
  case_bool_decide; [apply reads_only_raise|].
  case_bool_decide; [apply reads_only_raise|].
  apply reads_only_bind; [by apply reads_only_merge_jsonl|]. intros train_count.
  apply reads_only_bind; [by apply reads_only_merge_jsonl|]. intros test_count.
  apply reads_only_bind; [by apply reads_only_emit|]. intros _.
  by apply reads_only_emit.
Qed.

(** * The claims of the specification *)

(** ** Line merger *)

(** C1.  When the inputs are regular files, none of them the output under
    another name, and the destination can be opened, [merge_jsonl] returns
    and leaves in the output file the concatenation, in file order and line
    order, of every input line whose stripped form is not empty, written
    as the stripped form followed by one line feed.  Read back, the output
    has exactly these lines, and none of them is empty or blank. *)
Theorem merge_jsonl_output env files contents out w :
  hold env w files contents →
  apart env files out →
  writable env w out →
  ∃ w' n,
    merge_jsonl env files out w = (w', Ok n) ∧
    stat env w' out = Some (RegularFile (merged_text contents)) ∧
    readlines (merged_text contents) =
      (λ line, strip line ++ [LF]) <$> filter nonblank (all_lines contents) ∧
    Forall nonblank (readlines (merged_text contents)).
Proof.
  intros Hhold Hapart Hout.
  destruct (merge_jsonl_run env files contents out w) as (w' & Hrun & Hfile & _);
    [done..|].
  exists w', (count_nonblank contents).
  split_and!; [done|done|apply readlines_merged_text|apply merged_text_nonblank].
Qed.

Ltac decide_by_computation :=
  unfold apart; apply (bool_decide_unpack _); vm_compute; exact I.

Lemma demo_hold_train :
  hold demo_env demo_world train_inputs [train_0; train_1].
Proof. repeat constructor. Defined.

Lemma demo_writable_train : writable demo_env demo_world ["unified_train.json"].
Proof. split; [by apply creatable_here|exact I]. Defined.

Lemma merge_jsonl_output_witness :
  hold demo_env demo_world train_inputs [train_0; train_1] ∧
  apart demo_env train_inputs ["unified_train.json"] ∧
  writable demo_env demo_world ["unified_train.json"] ∧
  ∃ w' n,
    merge_jsonl demo_env train_inputs ["unified_train.json"] demo_world = (w', Ok n) ∧
    stat demo_env w' ["unified_train.json"] =
      Some (RegularFile (merged_text [train_0; train_1])) ∧
    readlines (merged_text [train_0; train_1]) =
      (λ line, strip line ++ [LF]) <$> filter nonblank (all_lines [train_0; train_1]) ∧
    Forall nonblank (readlines (merged_text [train_0; train_1])).
Proof.
  split; [apply demo_hold_train|].
  split; [decide_by_computation|].
  split; [apply demo_writable_train|].
  apply merge_jsonl_output;
    [apply demo_hold_train|decide_by_computation|apply demo_writable_train].
Defined.

(** C2.  Under the same conditions the integer [merge_jsonl] returns is the
    number of input lines whose stripped form is not empty, which is the
    number of lines of the output file. *)
Theorem merge_jsonl_count env files contents out w :
  hold env w files contents →
  apart env files out →
  writable env w out →
  ∃ w' text,
    merge_jsonl env files out w = (w', Ok (count_nonblank contents)) ∧
    stat env w' out = Some (RegularFile text) ∧
    length (readlines text) = count_nonblank contents.
Proof.
  intros Hhold Hapart Hout.
  destruct (merge_jsonl_run env files contents out w) as (w' & Hrun & Hfile & _);
    [done..|].
  exists w', (merged_text contents).
  split_and!; [done|done|apply merged_text_length].
Qed.

Lemma merge_jsonl_count_witness :
  hold demo_env demo_world train_inputs [train_0; train_1] ∧
  apart demo_env train_inputs ["unified_train.json"] ∧
  writable demo_env demo_world ["unified_train.json"] ∧
  ∃ w' text,
    merge_jsonl demo_env train_inputs ["unified_train.json"] demo_world =
      (w', Ok (count_nonblank [train_0; train_1])) ∧
    stat demo_env w' ["unified_train.json"] = Some (RegularFile text) ∧
    length (readlines text) = count_nonblank [train_0; train_1].
Proof.
  split; [apply demo_hold_train|].
  split; [decide_by_computation|].
  split; [apply demo_writable_train|].
  apply merge_jsonl_count;
    [apply demo_hold_train|decide_by_computation|apply demo_writable_train].
Defined.

(** The conditions on the inputs speak of them as they stand when they
    are read.  An input that is the output itself has been cut to length
    zero by then and brings no line: here the five lines of an earlier
    output are gone and nothing is merged. *)
Example merge_jsonl_into_itself :
  stat demo_env demo_world ["unified_train.json"] = Some (RegularFile stale) ∧
  (merge_jsonl demo_env [["unified_train.json"]] ["unified_train.json"]
     demo_world).2 = Ok 0 ∧
  stat demo_env
    (merge_jsonl demo_env [["unified_train.json"]] ["unified_train.json"]
       demo_world).1 ["unified_train.json"] = Some (RegularFile []).
Proof. split_and!; by vm_compute. Qed.

Lemma open_write_truncates env out w1 w2 :
  open_write env out w1 = (w2, Ok tt) →
  stat env w2 out = Some (RegularFile []).
Proof.
  unfold open_write. run. unfold stat. simpl.
  destruct (nodes w1 !! resolve env out) as [[]|]; try done;
    [|destruct (nodes w1 !! resolve env (directory_of env out)) as [[]|];
      try done];
    intros [= <-]; simpl; apply lookup_insert_eq.
Qed.

(** C7.  Whatever the output path held before, be it more lines than the
    new merge produces, the output file holds the newly merged text and
    nothing else after [merge_jsonl]; opening the output already cuts it to
    length zero. *)
Theorem merge_jsonl_overwrites env files contents out w old :
  hold env w files contents →
  apart env files out →
  writable env (set_nodes <[resolve env out := RegularFile old]> w) out →
  (∀ w1 w2, open_write env out w1 = (w2, Ok tt) →
            stat env w2 out = Some (RegularFile [])) ∧
  ∃ w' n,
    merge_jsonl env files out
      (set_nodes <[resolve env out := RegularFile old]> w) = (w', Ok n) ∧
    stat env w' out = Some (RegularFile (merged_text contents)).
Proof.
  intros Hhold Hapart Hout. split; [apply open_write_truncates|].
  assert (hold env (set_nodes <[resolve env out := RegularFile old]> w)
            files contents) as Hhold'.
  { unfold hold, apart in *. revert Hapart.
    induction Hhold as [|file content files contents Hfile _ IH]; [constructor|].
    rewrite fmap_cons, not_elem_of_cons. intros [Hne Hrest].
    constructor; [|by apply IH].
    unfold stat in *. simpl. by rewrite lookup_insert_ne. }
  destruct (merge_jsonl_run env files contents out _ Hhold' Hapart Hout)
    as (w' & Hrun & Hfile & _).
  eauto.
Qed.

Lemma merge_jsonl_overwrites_witness :
  hold demo_env demo_world train_inputs [train_0; train_1] ∧
  apart demo_env train_inputs ["unified_train.json"] ∧
  writable demo_env
    (set_nodes <[resolve demo_env ["unified_train.json"] :=
                   RegularFile (stale ++ stale)]> demo_world)
    ["unified_train.json"] ∧
  (∀ w1 w2, open_write demo_env ["unified_train.json"] w1 = (w2, Ok tt) →
            stat demo_env w2 ["unified_train.json"] = Some (RegularFile [])) ∧
  ∃ w' n,
    merge_jsonl demo_env train_inputs ["unified_train.json"]
      (set_nodes <[resolve demo_env ["unified_train.json"] :=
                     RegularFile (stale ++ stale)]> demo_world) = (w', Ok n) ∧
    stat demo_env w' ["unified_train.json"] =
      Some (RegularFile (merged_text [train_0; train_1])).
Proof.
  assert (writable demo_env
    (set_nodes <[resolve demo_env ["unified_train.json"] :=
                   RegularFile (stale ++ stale)]> demo_world)
    ["unified_train.json"]) as Hout.
  { split; [by apply creatable_here|exact I]. }
  split; [apply demo_hold_train|].
  split; [decide_by_computation|].
  split; [exact Hout|].
  apply merge_jsonl_overwrites;
    [apply demo_hold_train|decide_by_computation|exact Hout].
Defined.

(** C10.  With no input file at all, [merge_jsonl] still makes the missing
    directories of the destination: its directory and every directory on
    the way up to the first one that exists are directories afterwards.
    It leaves an empty output file, whatever the path held before, and
    returns 0. *)
Theorem merge_jsonl_no_files env out w :
  writable env w out →
  ∃ w', merge_jsonl env [] out w = (w', Ok 0) ∧
        stat env w' out = Some (RegularFile []) ∧
        ∀ q, on_the_way env (nodes w) (parent out) q → is_dir env w' q = true.
Proof.
  intros Hout.
  destruct (merge_jsonl_run env [] [] out w) as (w' & Hrun & Hfile & Hdir & _).
  - constructor.
  - unfold apart. apply not_elem_of_nil.
  - done.
  - exists w'. split_and!; [done|done|].
    intros q Hq%Hdir. unfold is_dir. by rewrite bool_decide_eq_true.
Qed.

Lemma demo_writable_deep : writable demo_env demo_world deep_output.
Proof.
  split.
  - apply creatable_below; [done..|]. apply creatable_below; [done..|].
    by apply creatable_here.
  - apply (bool_decide_unpack _). vm_compute. exact I.
Defined.

Lemma merge_jsonl_no_files_witness :
  writable demo_env demo_world deep_output ∧
  is_dir demo_env demo_world ["merged"] = false ∧
  is_dir demo_env demo_world ["merged"; "v1"] = false ∧
  on_the_way demo_env (nodes demo_world) (parent deep_output) ["merged"] ∧
  ∃ w', merge_jsonl demo_env [] deep_output demo_world = (w', Ok 0) ∧
        stat demo_env w' deep_output = Some (RegularFile []) ∧
        ∀ q, on_the_way demo_env (nodes demo_world) (parent deep_output) q →
             is_dir demo_env w' q = true.
Proof.
  split; [apply demo_writable_deep|].
  split; [reflexivity|]. split; [reflexivity|].
  split; [apply on_the_way_above; [reflexivity|apply on_the_way_here]|].
  apply merge_jsonl_no_files, demo_writable_deep.
Defined.

(** The destinations these conditions leave out are those the script
    cannot write.  Below a link that leads nowhere no directory can be
    made: the name is taken, and [mkdir] gives up at once, having made
    nothing.  Below a regular file the first [os.mkdir] already fails,
    for what is in the way is no directory. *)
Example merge_jsonl_below_dangling_link :
  is_link demo_env ["dangling"] = true ∧
  stat demo_env demo_world ["dangling"] = None ∧
  ¬ writable demo_env demo_world ["dangling"; "x.json"] ∧
  merge_jsonl demo_env [] ["dangling"; "x.json"] demo_world =
    (log (EvMkdir ["dangling"]) demo_world,
     Raise (FileExistsError ["dangling"])) ∧
  merge_jsonl demo_env [] ["dangling"; "v1"; "x.json"] demo_world =
    (log (EvMkdir ["dangling"]) (log (EvMkdir ["dangling"; "v1"]) demo_world),
     Raise (FileExistsError ["dangling"])).
Proof.
  split_and!; [done|done| |done|done].
  intros [Hdir _].
  inversion Hdir as [p Hp|p Hp Hlink _]; [by vm_compute in Hp|done].
Qed.

Example merge_jsonl_below_regular_file :
  ¬ writable demo_env demo_world ["unified_train.json"; "v1"; "x.json"] ∧
  merge_jsonl demo_env [] ["unified_train.json"; "v1"; "x.json"] demo_world =
    (log (EvMkdir ["unified_train.json"; "v1"]) demo_world,
     Raise (NotADirectoryError ["unified_train.json"; "v1"])).
Proof.
  split; [|done].
  intros [Hdir _].
  inversion Hdir as [p Hp|p Hp Hlink Hpar]; [by vm_compute in Hp|].
  inversion Hpar as [q Hq|q Hq]; by vm_compute in Hq.
Qed.

(** ** File selector *)

(** C3.  [collect_files] returns, without error, no path whose canonical
    form is the canonical form of an excluded path.  In particular the two
    selections [main] makes, which both exclude both output paths, stand
    apart from the train output and from the test output; and however a
    run of [main] ends, it has opened for reading no path that leads to
    one of its outputs: no output file is merged into itself. *)
Theorem collect_files_excludes_outputs env :
  (∀ d pattern outs w,
     ∃ files,
       collect_files env d pattern outs w = (log (EvGlob d pattern) w, Ok files) ∧
       ∀ p o, p ∈ files → o ∈ outs → resolve env p ≠ resolve env o) ∧
  (∀ args pattern w,
     ∃ files,
       collect_files env (input_dir args) pattern
         [output_train args; output_test args] w =
         (log (EvGlob (input_dir args) pattern) w, Ok files) ∧
       apart env files (output_train args) ∧
       apart env files (output_test args)) ∧
  (∀ args,
     reads_only
       (λ p, resolve env p ≠ resolve env (output_train args) ∧
             resolve env p ≠ resolve env (output_test args))
       (main env args)).
Proof.
  assert (∀ d pattern outs w,
     ∃ files,
       collect_files env d pattern outs w = (log (EvGlob d pattern) w, Ok files) ∧
       ∀ p o, p ∈ files → o ∈ outs → resolve env p ≠ resolve env o) as Hgen.
  { intros d pattern outs w. eexists. split; [apply collect_files_run|].
    intros p o (_ & _ & Hp)%elem_of_selection Ho Heq.
    apply Hp. rewrite Heq. by apply list_elem_of_fmap_2. }
  split; [done|]. split; [|apply reads_only_main].
  intros args pattern w.
  destruct (Hgen (input_dir args) pattern [output_train args; output_test args] w)
    as (files & Hrun & Hex).
  exists files. split; [done|]. unfold apart.
  split; intros (p & Heq & Hp)%list_elem_of_fmap; eapply Hex; eauto; set_solver.
Qed.

(** C8.  Every path [collect_files] returns is a match of the pattern that
    leads to a regular file; a match that leads to a directory, directly
    or through a link, to a special file or to nothing is left out, and
    leaving it out is no error. *)
Theorem collect_files_regular env d pattern outs w :
  ∃ files,
    collect_files env d pattern outs w = (log (EvGlob d pattern) w, Ok files) ∧
    (∀ p, p ∈ files →
          p ∈ glob env d pattern ∧
          ∃ content, stat env w p = Some (RegularFile content)) ∧
    (∀ p, stat env w p = Some Directory ∨ stat env w p = Some SpecialFile ∨
          stat env w p = None → p ∉ files).
Proof.
  eexists. split; [apply collect_files_run|]. split.
  - intros p (Hp & Hfile & _)%elem_of_selection. split; [done|].
    by apply is_file_regular.
  - intros p Hkind (_ & Hfile & _)%elem_of_selection.
    apply is_file_regular in Hfile as [content Hfile].
    destruct Hkind as [H|[H|H]]; congruence.
Qed.

(** C9.  When the pattern selects nothing, because nothing matches it or
    because every match is excluded or is not a regular file,
    [collect_files] raises nothing and returns the empty list; raising is
    left to the caller. *)
Theorem collect_files_empty env d pattern outs w :
  selects_nothing env w d pattern outs →
  collect_files env d pattern outs w = (log (EvGlob d pattern) w, Ok []).
Proof.
  apply selects_nothing_run.
Qed.

Lemma collect_files_empty_witness :
  selects_nothing demo_env demo_world ["json_output"] "*.csv" [] ∧
  selects_nothing demo_env demo_world ["json_output"] "*/part.json"
    [["json_output"; "a"; "part.json"]; ["json_output"; "a-b"; "part.json"]] ∧
  collect_files demo_env ["json_output"] "*.csv" [] demo_world =
    (log (EvGlob ["json_output"] "*.csv") demo_world, Ok []) ∧
  collect_files demo_env ["json_output"] "*/part.json"
    [["json_output"; "a"; "part.json"]; ["json_output"; "a-b"; "part.json"]]
    demo_world =
    (log (EvGlob ["json_output"] "*/part.json") demo_world, Ok []).
Proof.
  assert (selects_nothing demo_env demo_world ["json_output"] "*.csv" []) as H1.
  { constructor. }
  assert (selects_nothing demo_env demo_world ["json_output"] "*/part.json"
    [["json_output"; "a"; "part.json"]; ["json_output"; "a-b"; "part.json"]]) as H2.
  { repeat constructor; right; apply (bool_decide_unpack _); vm_compute; exact I. }
  split; [exact H1|]. split; [exact H2|].
  split; apply collect_files_empty; assumption.
Defined.

(** C6, as stated, fails: with a pattern that reaches into subdirectories
    the selection comes out as [json_output/a/part.json] before
    [json_output/a-b/part.json], while as strings the second is the
    smaller one, [-] preceding [/]. *)
Lemma collect_files_not_sorted_by_string :
  collect_files demo_env ["json_output"] "*/part.json" [] demo_world =
    (log (EvGlob ["json_output"] "*/part.json") demo_world,
     Ok [["json_output"; "a"; "part.json"]; ["json_output"; "a-b"; "part.json"]]) ∧
  path_str ["json_output"; "a"; "part.json"] = "json_output/a/part.json" ∧
  path_str ["json_output"; "a-b"; "part.json"] = "json_output/a-b/part.json" ∧
  ¬ Sorted str_le
      [["json_output"; "a"; "part.json"]; ["json_output"; "a-b"; "part.json"]].
Proof.
  split.
  { rewrite collect_files_run.
    apply (f_equal (λ files, (log _ demo_world, Ok files))). by vm_compute. }
  split; [done|]. split; [done|].
  intros Hsorted. apply Sorted_inv in Hsorted as [_ Hhd].
  apply HdRel_inv in Hhd. by vm_compute in Hhd.
Qed.

(** C6, amended.  The list [collect_files] returns is sorted by the
    ordering of paths, which compares part by part; it depends on the set
    of matches only, not on the order the directory scan yields them in;
    and when every match is an entry of the scanned directory itself, it
    is sorted by path string as well. *)
Theorem collect_files_sorted env d pattern outs w :
  ∃ files,
    collect_files env d pattern outs w = (log (EvGlob d pattern) w, Ok files) ∧
    StronglySorted path_le files ∧
    (∀ listing,
       listing ≡ₚ glob env d pattern →
       collect_files (mkEnv (resolve env) (λ _ _, listing)) d pattern outs w =
         (log (EvGlob d pattern) w, Ok files)) ∧
    ((∀ p, p ∈ glob env d pattern → ∃ name, p = d ++ [name]) →
     StronglySorted str_le files).
Proof.
  eexists. split; [apply collect_files_run|].
  assert (StronglySorted path_le
    (filter (λ path, is_file env w path ∧
                     resolve env path ∉
                       (list_to_set (resolve env <$> outs) : gset Path))
            (sorted (glob env d pattern)))) as Hsorted.
  { apply StronglySorted_filter, sorted_Sorted. }
  split; [done|]. split.
  - intros listing Hperm. rewrite collect_files_run. simpl.
    by rewrite (sorted_order_independent _ _ Hperm).
  - intros Hflat. eapply StronglySorted_impl_elem; [|done].
    intros p q (Hp & _)%elem_of_selection (Hq & _)%elem_of_selection.
    destruct (Hflat p Hp) as [a ->], (Hflat q Hq) as [b ->].
    apply path_le_str_le_sibling.
Qed.

Lemma collect_files_sorted_witness :
  (∀ p, p ∈ glob demo_env ["json_output"] "*train*.json" →
        ∃ name, p = ["json_output"] ++ [name]) ∧
  ∃ files,
    collect_files demo_env ["json_output"] "*train*.json"
      [["unified_train.json"]; ["unified_test.json"]] demo_world =
      (log (EvGlob ["json_output"] "*train*.json") demo_world, Ok files) ∧
    StronglySorted path_le files ∧
    (∀ listing,
       listing ≡ₚ glob demo_env ["json_output"] "*train*.json" →
       collect_files (mkEnv (resolve demo_env) (λ _ _, listing))
         ["json_output"] "*train*.json"
         [["unified_train.json"]; ["unified_test.json"]] demo_world =
         (log (EvGlob ["json_output"] "*train*.json") demo_world, Ok files)) ∧
    ((∀ p, p ∈ glob demo_env ["json_output"] "*train*.json" →
           ∃ name, p = ["json_output"] ++ [name]) →
     StronglySorted str_le files).
Proof.
  split; [|apply collect_files_sorted].
  intros p Hp. simpl in Hp.
  repeat (apply elem_of_cons in Hp as [->|Hp]; [by eexists|]).
  by apply elem_of_nil in Hp.
Defined.

Example collect_files_demo :
  collect_files demo_env ["json_output"] "*train*.json"
    [["unified_train.json"]; ["unified_test.json"]] demo_world =
    (log (EvGlob ["json_output"] "*train*.json") demo_world,
     Ok [["json_output"; "train_0.json"]; ["json_output"; "train_1.json"]]).
Proof.
  rewrite collect_files_run.
  apply (f_equal (λ files, (log _ demo_world, Ok files))). by vm_compute.
Qed.

(** ** Driver *)

Section driver_facts.
Context (env : Env).

Lemma is_dir_exists w p : is_dir env w p = true → path_exists env w p = true.
Proof.
  unfold is_dir, path_exists. rewrite !bool_decide_eq_true. by intros ->.
Qed.

(** The two selections of [main] see the same store. *)
Lemma selects_nothing_log ev w d pattern outs :
  selects_nothing env w d pattern outs →
  selects_nothing env (log ev w) d pattern outs.
Proof. done. Qed.

End driver_facts.

(** C4.  When the input directory is a directory and the train pattern or
    the test pattern selects nothing, [main] ends in [SystemExit] with a
    message that names a pattern that selected nothing and the directory;
    the process leaves with status 1.  All the run did is the two
    directory scans: no directory was made, no file opened, the store is
    as before, whichever of the two selections was the empty one. *)
Theorem main_no_files env args w :
  is_dir env w (input_dir args) = true →
  selects_nothing env w (input_dir args) (train_pattern args)
    [output_train args; output_test args] ∨
  selects_nothing env w (input_dir args) (test_pattern args)
    [output_train args; output_test args] →
  ∃ w' r split pattern,
    main env args w = (w', r) ∧
    exit_status r = 1 ∧
    diagnostic r = Some (no_files_message split pattern (input_dir args)) ∧
    ((split = "train" ∧ pattern = train_pattern args) ∨
     (split = "test" ∧ pattern = test_pattern args)) ∧
    selects_nothing env w (input_dir args) pattern
      [output_train args; output_test args] ∧
    nodes w' = nodes w ∧
    pending w' = pending w ∧
    trace w' = trace w ++ [EvGlob (input_dir args) (train_pattern args);
                           EvGlob (input_dir args) (test_pattern args)].
Proof.
  intros Hdir Hnone. unfold main, mbind, M_bind, bind, get. cbv beta iota.
  rewrite Hdir, (is_dir_exists _ _ _ Hdir). cbn [negb orb].
  destruct (decide (selects_nothing env w (input_dir args) (train_pattern args)
                      [output_train args; output_test args])) as [Htrain|Htrain].
  - rewrite (selects_nothing_run _ _ _ _ _ Htrain).
    rewrite collect_files_run. simpl.
    eexists _, _, "train", (train_pattern args).
    split; [done|]. split_and!; try done; [by left|simpl; by rewrite <-app_assoc].
  - destruct Hnone as [?|Htest]; [done|].
    rewrite collect_files_run. cbv beta iota.
    rewrite (selects_nothing_run _ _ _ _ _ (selects_nothing_log env _ _ _ _ _ Htest)).
    cbv beta iota. case_bool_decide as Hfiles.
    + exfalso. apply Htrain. apply Forall_forall. intros p Hp.
      destruct (is_file env w p) eqn:Hfile; [|by left]. right.
      destruct (decide (resolve env p ∈
        resolve env <$> [output_train args; output_test args])) as [|Hout]; [done|].
      assert (p ∈ @nil Path) as Hin; [|by apply elem_of_nil in Hin].
      rewrite <-Hfiles. by apply elem_of_selection.
    + eexists _, _, "test", (test_pattern args).
      split; [done|]. split_and!; try done; [by right|simpl; by rewrite <-app_assoc].
Qed.

Lemma main_no_files_witness :
  is_dir demo_env demo_world (input_dir default_args) = true ∧
  (selects_nothing demo_env demo_world ["json_output"] "*.csv"
     [["unified_train.json"]; ["unified_test.json"]] ∨
   selects_nothing demo_env demo_world ["json_output"] "*test*.json"
     [["unified_train.json"]; ["unified_test.json"]]) ∧
  ∃ w' r split pattern,
    main demo_env
      (mkArgs ["json_output"] "*.csv" "*test*.json"
              ["unified_train.json"] ["unified_test.json"]) demo_world = (w', r) ∧
    exit_status r = 1 ∧
    diagnostic r = Some (no_files_message split pattern ["json_output"]) ∧
    ((split = "train" ∧ pattern = "*.csv") ∨
     (split = "test" ∧ pattern = "*test*.json")) ∧
    selects_nothing demo_env demo_world ["json_output"] pattern
      [["unified_train.json"]; ["unified_test.json"]] ∧
    nodes w' = nodes demo_world ∧
    pending w' = pending demo_world ∧
    trace w' = trace demo_world ++ [EvGlob ["json_output"] "*.csv";
                                    EvGlob ["json_output"] "*test*.json"].
Proof.
  split; [reflexivity|].
  split; [left; constructor|].
  apply (main_no_files demo_env
           (mkArgs ["json_output"] "*.csv" "*test*.json"
                   ["unified_train.json"] ["unified_test.json"]) demo_world);
    [reflexivity|left; constructor].
Defined.

Example main_no_train_files_message :
  (main demo_env
     (mkArgs ["json_output"] "*.csv" "*test*.json"
             ["unified_train.json"] ["unified_test.json"]) demo_world).2 =
  Raise (SystemExit "No train files matched pattern '*.csv' in json_output").
Proof. by vm_compute. Qed.

(** C5.  When the input directory does not exist or is not a directory,
    [main] ends at once in [SystemExit] with a message that names the
    path; the process leaves with status 1 and the world, its record of
    scans and opens included, is untouched. *)
Theorem main_bad_directory env args w :
  path_exists env w (input_dir args) = false ∨
  is_dir env w (input_dir args) = false →
  ∃ r, main env args w = (w, r) ∧
       exit_status r = 1 ∧
       diagnostic r =
         Some ("Input directory not found: " +:+ path_str (input_dir args)).
Proof.
  intros Hbad. unfold main, mbind, M_bind, bind, get. cbv beta iota.
  assert (negb (path_exists env w (input_dir args))
          || negb (is_dir env w (input_dir args)) = true) as ->.
  { destruct Hbad as [-> | ->]; [done|]. apply orb_true_r. }
  eexists. split; [done|]. done.
Qed.

Lemma main_bad_directory_witness :
  (path_exists demo_env demo_world ["json_output"; "train_0.json"] = false ∨
   is_dir demo_env demo_world ["json_output"; "train_0.json"] = false) ∧
  ∃ r, main demo_env
         (mkArgs ["json_output"; "train_0.json"] "*train*.json" "*test*.json"
                 ["unified_train.json"] ["unified_test.json"]) demo_world =
         (demo_world, r) ∧
       exit_status r = 1 ∧
       diagnostic r =
         Some ("Input directory not found: " +:+
               path_str ["json_output"; "train_0.json"]).
Proof.
  split; [right; reflexivity|].
  apply (main_bad_directory demo_env
           (mkArgs ["json_output"; "train_0.json"] "*train*.json" "*test*.json"
                   ["unified_train.json"] ["unified_test.json"]) demo_world).
  right. reflexivity.
Defined.

Example main_demo_trace :
  trace (main demo_env default_args demo_world).1 =
    [EvGlob ["json_output"] "*train*.json";
     EvGlob ["json_output"] "*test*.json";
     EvMkdir [];
     EvOpenWrite ["unified_train.json"];
     EvOpenRead ["json_output"; "train_0.json"];
     EvOpenRead ["json_output"; "train_1.json"];
     EvMkdir [];
     EvOpenWrite ["unified_test.json"];
     EvOpenRead ["json_output"; "test_a.json"];
     EvPrint "Merged 2 train files into unified_train.json (3 lines)";
     EvPrint "Merged 1 test files into unified_test.json (1 lines)"].
Proof. by vm_compute. Qed.

(** * Further properties of the script *)

(** ** Relating the world before and after a run *)

Section steps_facts.
Context (R : World → World → Prop) `{!PreOrder R}.

Lemma steps_ret {A} (a : A) : steps R (mret a).
Proof using Type*. by intros w w' r [= <- _]. Qed.

Lemma steps_raise {A} e : steps R (raise (A := A) e).
Proof using Type*. by intros w w' r [= <- _]. Qed.

Lemma steps_emit ev : (∀ w, R w (log ev w)) → steps R (emit ev).
Proof using Type*. intros Hev w w' r [= <- _]. apply Hev. Qed.

Lemma steps_bind_run {A B} (m : M A) (f : A → M B) :
  steps R m →
  (∀ a w w', m w = (w', Ok a) → steps R (f a)) →
  steps R (m ≫= f).
Proof using Type*.
  intros Hm Hf w w' r. unfold mbind, M_bind, bind.
  destruct (m w) as [w1 [a|e]] eqn:Hrun; pose proof (Hm _ _ _ Hrun) as H1.
  - intros Hrun2. etrans; [done|]. by eapply Hf.
  - by intros [= <- <-].
Qed.

Lemma steps_bind {A B} (m : M A) (f : A → M B) :
  steps R m → (∀ a, steps R (f a)) → steps R (m ≫= f).
Proof using Type*. intros Hm Hf. apply steps_bind_run; auto. Qed.

(** After [get] the continuation runs in the very world it was given. *)
Lemma steps_get {A} (f : World → M A) :
  (∀ w w' r, f w w = (w', r) → R w w') → steps R (get ≫= f).
Proof using Type*. intros Hf w w' r. apply Hf. Qed.

Lemma steps_catch {A} (m : M A) (handler : exn → M A) :
  steps R m → (∀ e, steps R (handler e)) → steps R (catch m handler).
Proof using Type*.
  intros Hm Hh w w' r. unfold catch.
  destruct (m w) as [w1 [a|e]] eqn:Hrun; pose proof (Hm _ _ _ Hrun) as H1.
  - by intros [= <- <-].
  - intros Hrun2. etrans; [done|]. by eapply Hh.
Qed.

Lemma steps_finally {A} (m : M A) (cleanup : World → World) :
  steps R m → (∀ w, R w (cleanup w)) → steps R (finally m cleanup).
Proof using Type*.
  intros Hm Hc w w' r. unfold finally.
  destruct (m w) as [w1 r1] eqn:Hrun. intros [= <- <-].
  etrans; [by eapply Hm|apply Hc].
Qed.

Lemma steps_for_each {A S} (l : list A) (body : S → A → M S) (s : S) :
  (∀ s x, x ∈ l → steps R (body s x)) → steps R (for_each l body s).
Proof using Type*.
  revert s. induction l as [|x l IH]; intros s Hbody; simpl.
  - apply steps_ret.
  - apply steps_bind; [apply Hbody; by left|].
    intros s'. apply IH. intros ???. apply Hbody. by right.
Qed.

End steps_facts.

Section relation_facts.
Context (env : Env).

Global Instance emits_preorder Q : PreOrder (emits Q).
Proof.
  split.
  - intros w. exists []. by rewrite app_nil_r.
  - intros w1 w2 w3 (evs1 & H1 & Q1) (evs2 & H2 & Q2).
    exists (evs1 ++ evs2). split; [by rewrite H2, H1, app_assoc|].
    by apply Forall_app.
Qed.

Lemma emits_log (Q : event → Prop) ev w : Q ev → emits Q w (log ev w).
Proof. intros Hev. exists [ev]. split; [done|]. by constructor. Qed.

Lemma emits_quiet Q w w' : trace w' = trace w → emits Q w w'.
Proof. intros Ht. exists []. by rewrite app_nil_r. Qed.

Global Instance others_kept_preorder out keys : PreOrder (others_kept env out keys).
Proof.
  split.
  - intros w k _. by left.
  - intros w1 w2 w3 H12 H23 k Hk.
    destruct (H12 k Hk) as [E1|(E1 & D1 & K1)], (H23 k Hk) as [E2|(E2 & D2 & K2)].
    + left. congruence.
    + right. split_and!; [congruence|done..].
    + right. split_and!; [done|congruence|done].
    + congruence.
Qed.

Lemma others_kept_same out keys w w' :
  nodes w' = nodes w → others_kept env out keys w w'.
Proof. intros Hn k _. left. by rewrite Hn. Qed.

(** What was there stays there. *)
Lemma others_kept_Some out keys w w' k x :
  others_kept env out keys w w' → k ≠ resolve env out →
  nodes w !! k = Some x → nodes w' !! k = Some x.
Proof. intros Hk Hne Hx. destruct (Hk k Hne) as [E|(E & _)]; congruence. Qed.

End relation_facts.

(** ** The effects of a merge, one at a time *)

Section merge_steps.
Context (env : Env) (R : World → World → Prop) `{!PreOrder R}.

Lemma steps_os_mkdir p :
  (∀ w, R w (log (EvMkdir p) w)) →
  (∀ w, stat env w p = None →
        R w (set_nodes <[resolve env p := Directory]> w)) →
  steps R (os_mkdir env p).
Proof using Type*.
  intros Hlog Hmk w w' r. rewrite os_mkdir_run.
  destruct (lexists env w p) eqn:Hp; [intros [= <- _]; apply Hlog|].
  apply lexists_false_inv in Hp as [Hnone _].
  destruct (stat env w (parent p)) as [[]|]; intros [= <- _]; try apply Hlog.
  etrans; [apply Hlog|]. by apply Hmk.
Qed.

Lemma steps_unless_is_dir p e : steps R (unless_is_dir env p e).
Proof using Type*.
  apply steps_get; [done|]. intros w w' r.
  by destruct (is_dir env w p); intros [= <- _].
Qed.

Lemma steps_mkdir_exist_ok p :
  steps R (os_mkdir env p) → steps R (mkdir_exist_ok env p).
Proof using Type*.
  intros Hp. apply steps_catch; [done..|].
  intros []; try apply steps_unless_is_dir; by apply steps_raise.
Qed.

Lemma steps_mkdir_parents depth p :
  (∀ q, q ∈ ancestors depth p → steps R (os_mkdir env q)) →
  steps R (mkdir_parents env depth p).
Proof using Type*.
  revert p. induction depth as [|depth IH]; intros p Hq; simpl;
    (apply steps_catch; [done|apply Hq; by left|]);
    intros []; try apply steps_unless_is_dir; try done;
    destruct (is_anchor p); try by apply steps_raise.
  apply steps_bind; [done| |].
  - apply IH. intros q Hin. apply Hq. by right.
  - intros _. apply steps_mkdir_exist_ok, Hq. by left.
Qed.

Lemma steps_open_write p :
  (∀ w, R w (log (EvOpenWrite p) w)) →
  (∀ w, R w (set_pending <[resolve env p := []]>
               (set_nodes <[resolve env p := RegularFile []]> w))) →
  steps R (open_write env p).
Proof using Type*.
  intros Hlog Hfresh. apply steps_bind; [done|by apply steps_emit|]. intros _.
  apply steps_get; [done|]. intros w w' r.
  destruct (stat env w p) as [[]|]; try (intros [= <- _]; first [done|apply Hfresh]).
  destruct (stat env w (directory_of env p)) as [[]|]; intros [= <- _];
    first [done|apply Hfresh].
Qed.

Lemma steps_write p s :
  (∀ w buf, R w (set_pending <[resolve env p := buf]> w)) →
  steps R (write env p s).
Proof using Type*.
  intros Hw. apply steps_get; [done|]. intros w w' r.
  destruct (pending w !! resolve env p); intros [= <- _]; [apply Hw|done].
Qed.

Lemma steps_open_read p :
  (∀ w, R w (log (EvOpenRead p) w)) → steps R (open_read env p).
Proof using Type*.
  intros Hlog. apply steps_bind; [done|by apply steps_emit|]. intros _.
  apply steps_get; [done|]. intros w w' r.
  destruct (stat env w p) as [[]|]; try by intros [= <- _].
  by destruct (device_text w (resolve env p) _); intros [= <- _].
Qed.

Lemma steps_merge_line out n line :
  (∀ w buf, R w (set_pending <[resolve env out := buf]> w)) →
  steps R (merge_line env out n line).
Proof using Type*.
  intros Hw. unfold merge_line.
  destruct (negb (truthy (strip line))); [by apply steps_ret|].
  apply steps_bind; [done|by apply steps_write|]. intros _. by apply steps_ret.
Qed.

(** Any relation the single effects of a merge respect, the merge
    respects, however it ends. *)
Lemma steps_merge_jsonl files out :
  (∀ q, q ∈ output_dirs out → steps R (os_mkdir env q)) →
  (∀ w, R w (log (EvOpenWrite out) w)) →
  (∀ w, R w (set_pending <[resolve env out := []]>
               (set_nodes <[resolve env out := RegularFile []]> w))) →
  (∀ w buf, R w (set_pending <[resolve env out := buf]> w)) →
  (∀ w, R w (close env out w)) →
  (∀ file w, file ∈ files → R w (log (EvOpenRead file) w)) →
  steps R (merge_jsonl env files out).
Proof using Type*.
  intros Hmk Hlog Hfresh Hwrite Hclose Hread.
  apply steps_bind; [done|by apply steps_mkdir_parents|]. intros _.
  apply steps_bind; [done|by apply steps_open_write|]. intros _.
  apply steps_finally; [done| |done].
  apply steps_for_each; [done|]. intros n file Hfile.
  apply steps_bind; [done|apply steps_open_read; auto|]. intros infile.
  apply steps_for_each; [done|]. intros ???. by apply steps_merge_line.
Qed.

End merge_steps.

(** ** What a merge does and what it leaves alone *)

Lemma steps_merge_jsonl_emits env files out :
  steps (emits (merge_event files out)) (merge_jsonl env files out).
Proof.
  apply steps_merge_jsonl; [apply _|..].
  - intros q Hq. apply steps_os_mkdir; [apply _|..].
    + intros w. by apply emits_log.
    + intros w _. by apply emits_quiet.
  - intros w. by apply emits_log.
  - intros w. by apply emits_quiet.
  - intros w buf. by apply emits_quiet.
  - intros w. apply emits_quiet. unfold close.
    by destruct (pending w !! resolve env out).
  - intros file w Hfile. by apply emits_log.
Qed.

Lemma steps_merge_jsonl_kept env files out :
  steps (others_kept env out (resolve env <$> output_dirs out))
        (merge_jsonl env files out).
Proof.
  apply steps_merge_jsonl; [apply _|..].
  - intros q Hq. apply steps_os_mkdir; [apply _|..].
    + intros w. by apply others_kept_same.
    + intros w Hnone k Hk. simpl.
      destruct (decide (k = resolve env q)) as [->|Hne].
      * right. rewrite lookup_insert_eq. split_and!; [done..|].
        by apply list_elem_of_fmap_2.
      * left. by rewrite lookup_insert_ne.
  - intros w. by apply others_kept_same.
  - intros w k Hk. left. simpl. by rewrite lookup_insert_ne.
  - intros w buf. by apply others_kept_same.
  - intros w k Hk. left. unfold close.
    destruct (pending w !! resolve env out); [|done].
    simpl. by rewrite lookup_insert_ne.
  - intros file w Hfile. by apply others_kept_same.
Qed.

(** X1.  However [merge_jsonl] ends, all it did was to make directories on
    the way to the output, open the output for writing and open files of
    the given list for reading: it scans no directory, prints nothing and
    opens no other file. *)
Theorem merge_jsonl_operations env files out :
  steps (emits (merge_event files out)) (merge_jsonl env files out).
Proof. apply steps_merge_jsonl_emits. Qed.

(** X2.  However [merge_jsonl] ends, whether it returns or raises half way,
    every file and directory other than the output is as it was: no input
    is changed, nothing is removed, and the only additions are directories
    on the way to the output, where there was nothing. *)
Theorem merge_jsonl_keeps_others env files out :
  steps (others_kept env out (resolve env <$> output_dirs out))
        (merge_jsonl env files out).
Proof. apply steps_merge_jsonl_kept. Qed.

(** ** The selection is exact *)

(** X3.  [collect_files] returns the matches of the pattern that lead to a
    regular file and to none of the excluded paths: all of them, each as
    often as the scan yields it, and nothing else.  A scan without
    repetition gives a selection without repetition. *)
Theorem collect_files_exact env d pattern outs w :
  ∃ files,
    collect_files env d pattern outs w = (log (EvGlob d pattern) w, Ok files) ∧
    files ≡ₚ filter (λ p, is_file env w p = true ∧
                          resolve env p ∉ resolve env <$> outs)
                    (glob env d pattern) ∧
    (∀ p, p ∈ files ↔
          p ∈ glob env d pattern ∧ is_file env w p = true ∧
          resolve env p ∉ resolve env <$> outs) ∧
    (NoDup (glob env d pattern) → NoDup files).
Proof.
  eexists. split; [apply collect_files_run|].
  assert (filter (λ path, is_file env w path ∧
                          resolve env path ∉
                            (list_to_set (resolve env <$> outs) : gset Path))
                 (sorted (glob env d pattern))
          ≡ₚ filter (λ p, is_file env w p = true ∧
                          resolve env p ∉ resolve env <$> outs)
                    (glob env d pattern)) as Hperm.
  { rewrite sorted_Permutation. erewrite list_filter_iff; [done|].
    intros p. rewrite elem_of_list_to_set, Is_true_true. done. }
  split; [done|]. split; [apply elem_of_selection|].
  intros Hnodup. rewrite Hperm. by apply NoDup_filter.
Qed.

(** ** More on stripping and on merged text *)

Section more_text_facts.
Implicit Types (s t : str) (c : char) (contents : list str).

Lemma filter_all {A} (P : A → Prop) `{!∀ x, Decision (P x)} (l : list A) :
  Forall P l → filter P l = l.
Proof.
  induction 1 as [|x l Hx _ IH]; [done|].
  by rewrite filter_cons_True, IH.
Qed.

Lemma lstrip_id s :
  match s with [] => True | c :: _ => is_space c = false end → lstrip s = s.
Proof. destruct s as [|c s]; simpl; [done|]. by intros ->. Qed.

Lemma rstrip_prefix s : rstrip s `prefix_of` s.
Proof.
  unfold rstrip. destruct (lstrip_suffix (reverse s)) as [k Hk].
  exists (reverse k). apply (inj reverse).
  by rewrite reverse_app, !reverse_involutive.
Qed.

(** A stripped text begins and ends with a character that is no space. *)
Lemma strip_ends s :
  match strip s with [] => True | c :: _ => is_space c = false end ∧
  match reverse (strip s) with [] => True | c :: _ => is_space c = false end.
Proof.
  split.
  - destruct (rstrip_prefix (lstrip s)) as [k Hk]. fold (strip s) in Hk.
    destruct (strip s) as [|c t] eqn:Hs; [done|].
    by apply (lstrip_head s c (t ++ k)).
  - unfold strip, rstrip. rewrite reverse_involutive.
    destruct (lstrip (reverse (lstrip s))) as [|c t] eqn:Hs; [done|].
    by apply lstrip_head in Hs.
Qed.

Lemma strip_idemp s : strip (strip s) = strip s.
Proof.
  destruct (strip_ends s) as [Hhead Hlast].
  unfold strip at 1. rewrite (lstrip_id _ Hhead).
  unfold rstrip. by rewrite (lstrip_id _ Hlast), reverse_involutive.
Qed.

Lemma translate_newlines_elem s c :
  c ∈ translate_newlines s → c ∈ s ∨ c = LF.
Proof.
  induction s as [| |s IH|d s Hd IH|e s He IH] using translate_newlines_ind;
    simpl.
  - by intros ?%elem_of_nil.
  - intros ->%list_elem_of_singleton. by right.
  - intros [->|Hc]%elem_of_cons; [by right|].
    destruct (IH Hc); [left|by right]. by do 2 right.
  - destruct (d =? LF)%N eqn:E; [by apply N.eqb_eq in E|].
    intros [->|Hc]%elem_of_cons; [by right|].
    destruct (IH Hc); [left|by right]. by right.
  - destruct (e =? CR)%N eqn:E; [by apply N.eqb_eq in E|].
    intros [->|Hc]%elem_of_cons; [left; by left|].
    destruct (IH Hc); [left|by right]. by right.
Qed.

(** A text of spaces only has blank lines only. *)
Lemma readlines_blank s :
  Forall (λ c, is_space c = true) s → filter nonblank (readlines s) = [].
Proof.
  intros Hs. apply elem_of_nil_inv. intros l [Hl Hin]%list_elem_of_filter.
  apply Hl, strip_all_space, Forall_forall. intros c Hc.
  apply (split_lines_sub _ _ _ Hin), translate_newlines_elem in Hc as [Hc| ->];
    [|done].
  rewrite Forall_forall in Hs. by apply Hs.
Qed.

Lemma all_lines_app contents1 contents2 :
  all_lines (contents1 ++ contents2) = all_lines contents1 ++ all_lines contents2.
Proof. unfold all_lines. by rewrite fmap_app, concat_app. Qed.

Lemma merged_text_app contents1 contents2 :
  merged_text (contents1 ++ contents2) =
    merged_text contents1 ++ merged_text contents2.
Proof. unfold merged_text. by rewrite all_lines_app, merged_lines_app. Qed.

Lemma count_nonblank_app contents1 contents2 :
  count_nonblank (contents1 ++ contents2) =
    count_nonblank contents1 + count_nonblank contents2.
Proof.
  unfold count_nonblank. by rewrite all_lines_app, filter_app, length_app.
Qed.

Lemma all_lines_singleton s : all_lines [s] = readlines s.
Proof. unfold all_lines. simpl. apply app_nil_r. Qed.

Lemma merged_text_blank s :
  Forall (λ c, is_space c = true) s →
  merged_text [s] = [] ∧ count_nonblank [s] = 0.
Proof.
  intros Hs. unfold merged_text, count_nonblank, merged_lines.
  by rewrite all_lines_singleton, readlines_blank.
Qed.

(** Merging a merged text again gives it back. *)
Lemma merged_text_fixed contents :
  merged_text [merged_text contents] = merged_text contents ∧
  count_nonblank [merged_text contents] = count_nonblank contents.
Proof.
  unfold merged_text at 1, count_nonblank at 1, merged_lines.
  rewrite all_lines_singleton, readlines_merged_text.
  assert (filter nonblank
            ((λ line, strip line ++ [LF]) <$>
               filter nonblank (all_lines contents)) =
          (λ line, strip line ++ [LF]) <$>
            filter nonblank (all_lines contents)) as ->.
  { apply filter_all. apply Forall_fmap, Forall_forall.
    intros line [Hline _]%list_elem_of_filter. by apply nonblank_written. }
  split; [|by rewrite length_fmap].
  rewrite <-list_fmap_compose. unfold merged_text, merged_lines. f_equal.
  apply list_fmap_ext. intros _ line _. simpl.
  by rewrite strip_snoc_space, strip_idemp.
Qed.

End more_text_facts.

(** ** Runs of a merge, to the end and cut short *)

Section more_run_facts.
Context (env : Env).
Implicit Types (w : World) (p out : Path).

Lemma for_each_app {A S} (l1 l2 : list A) (body : S → A → M S) (s : S) w :
  for_each (l1 ++ l2) body s w =
    (for_each l1 body s ≫= for_each l2 body) w.
Proof.
  revert s w. induction l1 as [|x l1 IH]; intros s w; [done|].
  simpl. unfold mbind, M_bind, bind in *.
  destruct (body s x w) as [w1 [s1|e]]; [apply IH|done].
Qed.

Lemma hold_app w files1 files2 contents1 contents2 :
  hold env w files1 contents1 → hold env w files2 contents2 →
  hold env w (files1 ++ files2) (contents1 ++ contents2).
Proof. apply Forall2_app. Qed.

(** A directory that is there needs no making. *)
Lemma mkdir_parents_there depth p w :
  stat env w p = Some Directory →
  mkdir_parents env depth p w = (log (EvMkdir p) w, Ok tt).
Proof.
  intros Hp. rewrite mkdir_parents_unfold. unfold catch.
  rewrite os_mkdir_run, (lexists_true _ _ _ _ Hp).
  unfold unless_is_dir, is_dir. run. unfold stat in *. simpl.
  by rewrite bool_decide_eq_true_2.
Qed.

(** Something else in its place stops the merge at once. *)
Lemma mkdir_parents_taken depth p w x :
  stat env w p = Some x → x ≠ Directory →
  mkdir_parents env depth p w = (log (EvMkdir p) w, Raise (FileExistsError p)).
Proof.
  intros Hp Hx. rewrite mkdir_parents_unfold. unfold catch.
  rewrite os_mkdir_run, (lexists_true _ _ _ _ Hp).
  unfold unless_is_dir, is_dir. run. unfold stat in *. simpl.
  rewrite bool_decide_eq_false_2; [done|]. rewrite Hp. congruence.
Qed.

(** Making the directories of a destination that can be written and
    opening it. *)
Lemma open_destination out w :
  writable env w out →
  ∃ w1,
    mkdir env (parent out) w = (w1, Ok tt) ∧
    grows (resolve env <$> output_dirs out) w w1 ∧
    open_write env out w1 =
      (mkWorld (<[resolve env out := RegularFile []]> (nodes w1))
               (<[resolve env out := []]> (pending w1))
               (trace w1 ++ [EvOpenWrite out])
               (device_text w1),
       Ok tt).
Proof.
  intros [Hdir Hout].
  destruct (mkdir_parents_ok _ _ _ Hdir (length (parent out)) w)
    as (w1 & Hmk & Hdir1 & Hgrow & _); [done..|].
  exists w1. split; [done|]. split; [done|].
  apply open_write_run. unfold stat in *.
  destruct (nodes w !! resolve env out) as [[]|] eqn:Hk; try done.
  - left. eexists. by eapply grows_Some.
  - right. destruct Hout as [Hlink Hout]. split; [|done]. destruct Hgrow as [_ Hn].
    destruct (Hn (resolve env out)) as [E|(_ & _ & E)]; [congruence|done].
Qed.

Lemma hold_opened out w w1 files contents :
  hold env w files contents → apart env files out →
  grows (resolve env <$> output_dirs out) w w1 →
  hold env (mkWorld (<[resolve env out := RegularFile []]> (nodes w1))
                    (<[resolve env out := []]> (pending w1))
                    (trace w1 ++ [EvOpenWrite out])
                    (device_text w1)) files contents.
Proof.
  intros Hhold Hapart Hgrow. unfold hold, apart in *. revert Hapart.
  induction Hhold as [|file content files contents Hfile _ IH]; [constructor|].
  rewrite fmap_cons, not_elem_of_cons. intros [Hfo Hrest].
  constructor; [|by apply IH].
  unfold stat in *. simpl. rewrite lookup_insert_ne by done.
  by eapply grows_Some.
Qed.

End more_run_facts.

Lemma merge_jsonl_onto_directory env files out w :
  stat env w out = Some Directory →
  stat env w (parent out) = Some Directory →
  merge_jsonl env files out w =
    (log (EvOpenWrite out) (log (EvMkdir (parent out)) w),
     Raise (IsADirectoryError out)).
Proof.
  intros Hout Hdir. unfold merge_jsonl, mkdir, with_open_write.
  unfold mbind, M_bind, bind. rewrite (mkdir_parents_there _ _ _ _ Hdir).
  unfold open_write. run. unfold stat in *. simpl. by rewrite Hout.
Qed.

(** X4.  When the destination is a directory, [merge_jsonl] raises
    [IsADirectoryError]; when something other than a directory stands
    where the directory of the destination should be, it raises
    [FileExistsError].  Either way it stops before opening any input and
    leaves every file as it was. *)
Theorem merge_jsonl_bad_destination env files out w :
  (stat env w out = Some Directory →
   stat env w (parent out) = Some Directory →
   merge_jsonl env files out w =
     (log (EvOpenWrite out) (log (EvMkdir (parent out)) w),
      Raise (IsADirectoryError out))) ∧
  (∀ x, stat env w (parent out) = Some x → x ≠ Directory →
   merge_jsonl env files out w =
     (log (EvMkdir (parent out)) w, Raise (FileExistsError (parent out)))).
Proof.
  split.
  - apply merge_jsonl_onto_directory.
  - intros x Hx Hne. unfold merge_jsonl, mkdir.
    unfold mbind, M_bind, bind. by rewrite (mkdir_parents_taken _ _ _ _ _ Hx Hne).
Qed.

Lemma merge_jsonl_bad_destination_witness :
  stat demo_env demo_world ["json_output"] = Some Directory ∧
  stat demo_env demo_world (parent ["json_output"]) = Some Directory ∧
  stat demo_env demo_world (parent ["unified_train.json"; "x.json"]) =
    Some (RegularFile stale) ∧
  merge_jsonl demo_env train_inputs ["json_output"] demo_world =
    (log (EvOpenWrite ["json_output"])
       (log (EvMkdir (parent ["json_output"])) demo_world),
     Raise (IsADirectoryError ["json_output"])) ∧
  merge_jsonl demo_env train_inputs ["unified_train.json"; "x.json"] demo_world =
    (log (EvMkdir (parent ["unified_train.json"; "x.json"])) demo_world,
     Raise (FileExistsError (parent ["unified_train.json"; "x.json"]))).
Proof.
  split; [reflexivity|]. split; [reflexivity|]. split; [reflexivity|].
  split.
  - apply (merge_jsonl_bad_destination demo_env train_inputs ["json_output"]
             demo_world); reflexivity.
  - apply (merge_jsonl_bad_destination demo_env train_inputs
             ["unified_train.json"; "x.json"] demo_world) with (RegularFile stale);
      [reflexivity|discriminate].
Defined.

Lemma no_directory_cases env w p q :
  no_directory env w p q = FileNotFoundError p ∨
  no_directory env w p q = NotADirectoryError p.
Proof. unfold no_directory. destruct (not_a_directory _ _ _ _); auto. Qed.

(** What cannot be opened stops the loop over the files. *)
Lemma merge_file_unreadable env out n bad w :
  unreadable env w bad →
  ∃ e, merge_file env out n bad w = (log (EvOpenRead bad) w, Raise e) ∧
       (e = FileNotFoundError bad ∨ e = NotADirectoryError bad ∨
        e = IsADirectoryError bad).
Proof.
  intros Hbad. unfold merge_file, open_read. run.
  change (stat env (log (EvOpenRead bad) w) bad) with (stat env w bad).
  destruct Hbad as [-> | ->]; [|eauto].
  eexists. split; [done|].
  destruct (no_directory_cases env (log (EvOpenRead bad) w) bad
              (directory_of env bad)) as [-> | ->]; auto.
Qed.

(** X5.  When a file of the list cannot be opened, because it is missing
    or is a directory, [merge_jsonl] raises [FileNotFoundError],
    [NotADirectoryError] or [IsADirectoryError] for that file.  The output
    file is closed and keeps what was merged from the files before it;
    the files after it are never opened. *)
Theorem merge_jsonl_unreadable_input env good bad rest contents out w :
  hold env w good contents →
  unreadable env w bad →
  apart env (good ++ [bad]) out →
  writable env w out →
  ∃ w' e,
    merge_jsonl env (good ++ bad :: rest) out w = (w', Raise e) ∧
    (e = FileNotFoundError bad ∨ e = NotADirectoryError bad ∨
     e = IsADirectoryError bad) ∧
    stat env w' out = Some (RegularFile (merged_text contents)) ∧
    pending w' !! resolve env out = None ∧
    emits (merge_event (good ++ [bad]) out) w w'.
Proof.
  intros Hhold Hbad Hapart Hout.
  destruct (open_destination env out w Hout) as (w1 & Hmk & Hgrow & Hopen).
  assert (apart env good out ∧ resolve env bad ≠ resolve env out) as [Hgood Hne].
  { unfold apart in *. rewrite fmap_app, not_elem_of_app in Hapart.
    destruct Hapart as [? Hb]. split; [done|].
    intros Heq. apply Hb. rewrite <-Heq. by left. }
  set (w2 := mkWorld (<[resolve env out := RegularFile []]> (nodes w1))
                     (<[resolve env out := []]> (pending w1))
                     (trace w1 ++ [EvOpenWrite out])
                     (device_text w1)) in *.
  pose proof (hold_opened env out w w1 good contents Hhold Hgood Hgrow) as Hhold2.
  fold w2 in Hhold2.
  assert (unreadable env w2 bad) as Hbad2.
  { unfold unreadable, stat in *. simpl. rewrite lookup_insert_ne by done.
    destruct Hgrow as [_ Hn].
    destruct (Hn (resolve env bad)) as [E|(_ & E & _)]; [|by right].
    rewrite E. done. }
  assert (emits (merge_event (good ++ [bad]) out) w w1) as Hev1.
  { assert (steps (emits (merge_event (good ++ [bad]) out))
              (mkdir_parents env (length (parent out)) (parent out))) as Hsteps.
    { apply steps_mkdir_parents; [apply _|]. intros q Hq.
      apply steps_os_mkdir; [apply _|..].
      - intros w0. by apply emits_log.
      - intros w0 _. by apply emits_quiet. }
    by eapply Hsteps. }
  unfold merge_jsonl, with_open_write, finally.
  unfold mbind, M_bind, bind. rewrite Hmk, Hopen.
  rewrite for_each_app. unfold mbind, M_bind, bind.
  erewrite (merge_files_run env out good contents 0 w2 []);
    [|done|simpl; apply lookup_insert_eq].
  cbn [for_each]. unfold mbind, M_bind, bind.
  match goal with
  | |- context [merge_file env out ?n bad ?w3] =>
      destruct (merge_file_unreadable env out n bad w3) as (e & Hrun & He);
        [exact Hbad2|rewrite Hrun]
  end.
  unfold close. simpl. rewrite lookup_insert_eq. simpl. unfold stat. simpl.
  eexists _, e. split; [reflexivity|]. split; [done|].
  split; [apply lookup_insert_eq|]. split; [apply lookup_delete_eq|].
  etrans; [exact Hev1|]. simpl.
  exists (EvOpenWrite out :: (EvOpenRead <$> good) ++ [EvOpenRead bad]).
  split.
  - simpl. by rewrite <-!app_assoc.
  - constructor; [done|]. apply Forall_app. split.
    + apply Forall_fmap, Forall_forall. intros f Hf. simpl.
      apply elem_of_app. by left.
    + constructor; [|constructor]. simpl. apply elem_of_app. right. by left.
Qed.

Lemma merge_jsonl_unreadable_input_witness :
  hold demo_env demo_world [["json_output"; "train_0.json"]] [train_0] ∧
  unreadable demo_env demo_world ["json_output"; "train_old.json"] ∧
  apart demo_env
    ([["json_output"; "train_0.json"]] ++ [["json_output"; "train_old.json"]])
    ["unified_train.json"] ∧
  writable demo_env demo_world ["unified_train.json"] ∧
  ∃ w' e,
    merge_jsonl demo_env
      ([["json_output"; "train_0.json"]] ++
         ["json_output"; "train_old.json"] :: [["json_output"; "train_1.json"]])
      ["unified_train.json"] demo_world = (w', Raise e) ∧
    (e = FileNotFoundError ["json_output"; "train_old.json"] ∨
     e = NotADirectoryError ["json_output"; "train_old.json"] ∨
     e = IsADirectoryError ["json_output"; "train_old.json"]) ∧
    stat demo_env w' ["unified_train.json"] =
      Some (RegularFile (merged_text [train_0])) ∧
    pending w' !! resolve demo_env ["unified_train.json"] = None ∧
    emits (merge_event
             ([["json_output"; "train_0.json"]] ++
                [["json_output"; "train_old.json"]])
             ["unified_train.json"]) demo_world w'.
Proof.
  assert (hold demo_env demo_world [["json_output"; "train_0.json"]] [train_0])
    as Hhold by repeat constructor.
  assert (unreadable demo_env demo_world ["json_output"; "train_old.json"])
    as Hbad by (by right).
  split; [exact Hhold|]. split; [exact Hbad|].
  split; [decide_by_computation|].
  split; [apply demo_writable_train|].
  apply merge_jsonl_unreadable_input;
    [exact Hhold|exact Hbad|decide_by_computation|apply demo_writable_train].
Defined.

(** ** The merged text *)

(** X6.  Nothing is carried from one input file to the next: merging a
    list made of two lists gives the output of the first followed by the
    output of the second, and the two counts add up. *)
Theorem merge_jsonl_concatenates env files1 files2 contents1 contents2 out w :
  hold env w files1 contents1 →
  hold env w files2 contents2 →
  apart env (files1 ++ files2) out →
  writable env w out →
  ∃ w1 w2 w' n1 n2 text1 text2,
    merge_jsonl env files1 out w = (w1, Ok n1) ∧
    stat env w1 out = Some (RegularFile text1) ∧
    merge_jsonl env files2 out w = (w2, Ok n2) ∧
    stat env w2 out = Some (RegularFile text2) ∧
    merge_jsonl env (files1 ++ files2) out w = (w', Ok (n1 + n2)) ∧
    stat env w' out = Some (RegularFile (text1 ++ text2)).
Proof.
  intros Hhold1 Hhold2 Hapart Hout.
  assert (apart env files1 out ∧ apart env files2 out) as [Hapart1 Hapart2].
  { unfold apart in *. by rewrite fmap_app, not_elem_of_app in Hapart. }
  destruct (merge_jsonl_run env files1 contents1 out w) as (w1 & Hrun1 & Hout1 & _);
    [done..|].
  destruct (merge_jsonl_run env files2 contents2 out w) as (w2 & Hrun2 & Hout2 & _);
    [done..|].
  destruct (merge_jsonl_run env (files1 ++ files2) (contents1 ++ contents2) out w)
    as (w' & Hrun & Hout' & _); [by apply hold_app|done..|].
  rewrite count_nonblank_app, merged_text_app in *.
  by exists w1, w2, w', (count_nonblank contents1), (count_nonblank contents2),
    (merged_text contents1), (merged_text contents2).
Qed.

Lemma merge_jsonl_concatenates_witness :
  hold demo_env demo_world [["json_output"; "train_0.json"]] [train_0] ∧
  hold demo_env demo_world [["json_output"; "train_1.json"]] [train_1] ∧
  apart demo_env
    ([["json_output"; "train_0.json"]] ++ [["json_output"; "train_1.json"]])
    ["unified_train.json"] ∧
  writable demo_env demo_world ["unified_train.json"] ∧
  ∃ w1 w2 w' n1 n2 text1 text2,
    merge_jsonl demo_env [["json_output"; "train_0.json"]]
      ["unified_train.json"] demo_world = (w1, Ok n1) ∧
    stat demo_env w1 ["unified_train.json"] = Some (RegularFile text1) ∧
    merge_jsonl demo_env [["json_output"; "train_1.json"]]
      ["unified_train.json"] demo_world = (w2, Ok n2) ∧
    stat demo_env w2 ["unified_train.json"] = Some (RegularFile text2) ∧
    merge_jsonl demo_env
      ([["json_output"; "train_0.json"]] ++ [["json_output"; "train_1.json"]])
      ["unified_train.json"] demo_world = (w', Ok (n1 + n2)) ∧
    stat demo_env w' ["unified_train.json"] =
      Some (RegularFile (text1 ++ text2)).
Proof.
  assert (hold demo_env demo_world [["json_output"; "train_0.json"]] [train_0])
    as Hhold0 by repeat constructor.
  assert (hold demo_env demo_world [["json_output"; "train_1.json"]] [train_1])
    as Hhold1 by repeat constructor.
  split; [exact Hhold0|]. split; [exact Hhold1|].
  split; [decide_by_computation|].
  split; [apply demo_writable_train|].
  apply (merge_jsonl_concatenates demo_env _ _ [train_0] [train_1]);
    [exact Hhold0|exact Hhold1|decide_by_computation|apply demo_writable_train].
Defined.

(** X7.  A file that holds the output of a merge is copied as it stands
    when it is merged alone, with the same count: merging is idempotent. *)
Theorem merge_jsonl_idempotent env contents file out w :
  stat env w file = Some (RegularFile (merged_text contents)) →
  apart env [file] out →
  writable env w out →
  ∃ w', merge_jsonl env [file] out w = (w', Ok (count_nonblank contents)) ∧
        stat env w' out = Some (RegularFile (merged_text contents)).
Proof.
  intros Hfile Hapart Hout.
  destruct (merge_jsonl_run env [file] [merged_text contents] out w)
    as (w' & Hrun & Hout' & _); [by repeat constructor|done..|].
  destruct (merged_text_fixed contents) as [Htext Hcount].
  rewrite Htext, Hcount in *. eauto.
Qed.

Lemma merge_jsonl_idempotent_witness :
  stat demo_env demo_world ["unified_train.json"] =
    Some (RegularFile (merged_text [stale])) ∧
  apart demo_env [["unified_train.json"]] ["copy.json"] ∧
  writable demo_env demo_world ["copy.json"] ∧
  ∃ w', merge_jsonl demo_env [["unified_train.json"]] ["copy.json"] demo_world =
          (w', Ok (count_nonblank [stale])) ∧
        stat demo_env w' ["copy.json"] =
          Some (RegularFile (merged_text [stale])).
Proof.
  assert (writable demo_env demo_world ["copy.json"]) as Hout.
  { split; [by apply creatable_here|decide_by_computation]. }
  split; [by vm_compute|].
  split; [decide_by_computation|].
  split; [exact Hout|].
  apply merge_jsonl_idempotent; [by vm_compute|decide_by_computation|exact Hout].
Defined.

(** The shape of a merged text: lines that are not empty, carry no white
    space at either end and no line break inside, each followed by one
    line feed. *)
Lemma merged_text_shape contents :
  ∃ lines,
    merged_text contents = concat ((λ l, l ++ [LF]) <$> lines) ∧
    length lines = count_nonblank contents ∧
    Forall (λ l, l ≠ [] ∧ strip l = l ∧ (LF ∉ l) ∧ (CR ∉ l)) lines.
Proof.
  exists (strip <$> filter nonblank (all_lines contents)). split_and!.
  - unfold merged_text, merged_lines. by rewrite <-list_fmap_compose.
  - unfold count_nonblank. by rewrite length_fmap.
  - apply Forall_fmap, Forall_forall.
    intros line [Hline (content & _ & Hin)%elem_of_all_lines]%list_elem_of_filter.
    simpl. destruct (readlines_strip_clean _ _ Hin) as [HLF HCR].
    split_and!; [done|apply strip_idemp|done..].
Qed.

(** X8.  The output of a merge is in a normal form, whatever the line
    ends and the white space of the inputs: it is a sequence of lines,
    as many as the count returned, each of them not empty, without white
    space at either end, without a line feed or a carriage return inside,
    and each ended by one line feed. *)
Theorem merge_jsonl_normal_form env files contents out w :
  hold env w files contents →
  apart env files out →
  writable env w out →
  ∃ w' n lines,
    merge_jsonl env files out w = (w', Ok n) ∧
    stat env w' out = Some (RegularFile (concat ((λ l, l ++ [LF]) <$> lines))) ∧
    length lines = n ∧
    Forall (λ l, l ≠ [] ∧ strip l = l ∧ (LF ∉ l) ∧ (CR ∉ l)) lines.
Proof.
  intros Hhold Hapart Hout.
  destruct (merge_jsonl_run env files contents out w)
    as (w' & Hrun & Hout' & _); [done..|].
  destruct (merged_text_shape contents) as (lines & Htext & Hlen & Hlines).
  exists w', (count_nonblank contents), lines. by rewrite <-Htext.
Qed.

Lemma merge_jsonl_normal_form_witness :
  hold demo_env demo_world train_inputs [train_0; train_1] ∧
  apart demo_env train_inputs ["unified_train.json"] ∧
  writable demo_env demo_world ["unified_train.json"] ∧
  ∃ w' n lines,
    merge_jsonl demo_env train_inputs ["unified_train.json"] demo_world =
      (w', Ok n) ∧
    stat demo_env w' ["unified_train.json"] =
      Some (RegularFile (concat ((λ l, l ++ [LF]) <$> lines))) ∧
    length lines = n ∧
    Forall (λ l, l ≠ [] ∧ strip l = l ∧ (LF ∉ l) ∧ (CR ∉ l)) lines.
Proof.
  split; [apply demo_hold_train|].
  split; [decide_by_computation|].
  split; [apply demo_writable_train|].
  apply (merge_jsonl_normal_form demo_env train_inputs [train_0; train_1]);
    [apply demo_hold_train|decide_by_computation|apply demo_writable_train].
Defined.

(** X9.  An input file that holds nothing but white space, or nothing at
    all, adds nothing: the merge gives the same output and the same count
    as without that file. *)
Theorem merge_jsonl_blank_input env files1 files2 contents1 contents2
    blank spaces out w :
  hold env w files1 contents1 →
  stat env w blank = Some (RegularFile spaces) →
  Forall (λ c, is_space c = true) spaces →
  hold env w files2 contents2 →
  apart env (files1 ++ blank :: files2) out →
  writable env w out →
  ∃ w1 w2 n text,
    merge_jsonl env (files1 ++ blank :: files2) out w = (w1, Ok n) ∧
    stat env w1 out = Some (RegularFile text) ∧
    merge_jsonl env (files1 ++ files2) out w = (w2, Ok n) ∧
    stat env w2 out = Some (RegularFile text).
Proof.
  intros Hhold1 Hblank Hspaces Hhold2 Hapart Hout.
  assert (apart env (files1 ++ files2) out) as Hapart'.
  { unfold apart in *. rewrite fmap_app, fmap_cons in Hapart.
    rewrite fmap_app. rewrite !not_elem_of_app, not_elem_of_cons in *. tauto. }
  destruct (merge_jsonl_run env (files1 ++ blank :: files2)
              (contents1 ++ spaces :: contents2) out w)
    as (w1 & Hrun1 & Hout1 & _); [|done..|].
  { apply hold_app; [done|]. by constructor. }
  destruct (merge_jsonl_run env (files1 ++ files2) (contents1 ++ contents2) out w)
    as (w2 & Hrun2 & Hout2 & _); [by apply hold_app|done..|].
  destruct (merged_text_blank spaces Hspaces) as [Htext Hcount].
  change (spaces :: contents2) with ([spaces] ++ contents2) in *.
  rewrite (count_nonblank_app contents1 ([spaces] ++ contents2)),
    (count_nonblank_app [spaces] contents2), Hcount in Hrun1.
  rewrite (merged_text_app contents1 ([spaces] ++ contents2)),
    (merged_text_app [spaces] contents2), Htext in Hout1.
  rewrite count_nonblank_app in Hrun2. rewrite merged_text_app in Hout2.
  simpl in *. eauto 10.
Qed.

Lemma merge_jsonl_blank_input_witness :
  hold demo_env blank_world [["json_output"; "train_0.json"]] [train_0] ∧
  stat demo_env blank_world ["json_output"; "train_blank.json"] =
    Some (RegularFile blank_text) ∧
  Forall (λ c, is_space c = true) blank_text ∧
  hold demo_env blank_world [["json_output"; "train_1.json"]] [train_1] ∧
  apart demo_env
    ([["json_output"; "train_0.json"]] ++
       ["json_output"; "train_blank.json"] :: [["json_output"; "train_1.json"]])
    ["unified_train.json"] ∧
  writable demo_env blank_world ["unified_train.json"] ∧
  ∃ w1 w2 n text,
    merge_jsonl demo_env
      ([["json_output"; "train_0.json"]] ++
         ["json_output"; "train_blank.json"] :: [["json_output"; "train_1.json"]])
      ["unified_train.json"] blank_world = (w1, Ok n) ∧
    stat demo_env w1 ["unified_train.json"] = Some (RegularFile text) ∧
    merge_jsonl demo_env
      ([["json_output"; "train_0.json"]] ++ [["json_output"; "train_1.json"]])
      ["unified_train.json"] blank_world = (w2, Ok n) ∧
    stat demo_env w2 ["unified_train.json"] = Some (RegularFile text).
Proof.
  assert (hold demo_env blank_world [["json_output"; "train_0.json"]] [train_0])
    as Hhold0 by repeat constructor.
  assert (hold demo_env blank_world [["json_output"; "train_1.json"]] [train_1])
    as Hhold1 by repeat constructor.
  assert (Forall (λ c, is_space c = true) blank_text) as Hspaces
    by repeat constructor.
  assert (writable demo_env blank_world ["unified_train.json"]) as Hout.
  { split; [by apply creatable_here|exact I]. }
  split; [exact Hhold0|]. split; [reflexivity|]. split; [exact Hspaces|].
  split; [exact Hhold1|]. split; [decide_by_computation|]. split; [exact Hout|].
  apply (merge_jsonl_blank_input demo_env _ _ [train_0] [train_1] _ blank_text);
    [exact Hhold0|reflexivity|exact Hspaces|exact Hhold1|decide_by_computation
    |exact Hout].
Defined.

(** ** What a successful merge implies *)

Section merge_inversion.
Context (env : Env).
Implicit Types (w : World) (out : Path).

Global Instance grows_preorder keys : PreOrder (grows keys).
Proof.
  split.
  - intros w. split; [done|]. intros k. by left.
  - intros w1 w2 w3. by apply grows_trans.
Qed.

(** Making directories adds directories where there was nothing, however
    it ends. *)
Lemma steps_mkdir_grows depth p :
  steps (grows (resolve env <$> ancestors depth p)) (mkdir_parents env depth p).
Proof.
  apply steps_mkdir_parents; [apply _|]. intros q Hq.
  apply steps_os_mkdir; [apply _|..].
  - intros w. apply grows_log.
  - intros w Hnone. split; [done|]. intros k. simpl.
    destruct (decide (k = resolve env q)) as [->|Hne].
    + right. rewrite lookup_insert_eq. split_and!; [done..|].
      by apply list_elem_of_fmap_2.
    + left. by rewrite lookup_insert_ne.
Qed.

Lemma open_write_Ok_inv out w w' :
  open_write env out w = (w', Ok tt) →
  w' = mkWorld (<[resolve env out := RegularFile []]> (nodes w))
               (<[resolve env out := []]> (pending w))
               (trace w ++ [EvOpenWrite out])
               (device_text w).
Proof.
  unfold open_write. run. unfold stat. simpl.
  destruct (nodes w !! resolve env out) as [[]|]; try by intros [= <-].
  destruct (nodes w !! resolve env (directory_of env out)) as [[]|];
    by intros [= <-].
Qed.



End merge_inversion.


(** A run that is known by its result. *)
Lemma run_result {A} (m : M A) w r : (m w).2 = r → m w = ((m w).1, r).
Proof. destruct (m w) as [w' r']. simpl. by intros ->. Qed.


(** * The driver *)

Section main_facts.
Context (env : Env).
Implicit Types (w : World) (out : Path) (args : Args).

Lemma collect_files_result d pattern outs w files :
  (collect_files env d pattern outs w).2 = Ok files →
  collect_files env d pattern outs w = (log (EvGlob d pattern) w, Ok files).
Proof. rewrite collect_files_run. cbn [snd]. by intros [= <-]. Qed.

(** What [collect_files] returns is apart from the outputs it was told to
    leave out. *)
Lemma collect_files_apart d pattern outs w files out :
  (collect_files env d pattern outs w).2 = Ok files →
  out ∈ outs → apart env files out.
Proof.
  rewrite collect_files_run. cbn [snd]. intros [= <-] Hout Hin.
  apply list_elem_of_fmap in Hin as (p & Heq & Hp).
  apply elem_of_selection in Hp as (_ & _ & Hne). apply Hne. rewrite <-Heq.
  by apply list_elem_of_fmap_2.
Qed.

(** [main] once the input directory is found and the two selections are
    made. *)
Lemma main_run args w train_files test_files :
  is_dir env w (input_dir args) = true →
  (collect_files env (input_dir args) (train_pattern args)
     [output_train args; output_test args] w).2 = Ok train_files →
  (collect_files env (input_dir args) (test_pattern args)
     [output_train args; output_test args] w).2 = Ok test_files →
  main env args w =
    (if bool_decide (train_files = []) then
       raise (SystemExit
                (no_files_message "train" (train_pattern args) (input_dir args)))
     else if bool_decide (test_files = []) then
       raise (SystemExit
                (no_files_message "test" (test_pattern args) (input_dir args)))
     else
       train_count ← merge_jsonl env train_files (output_train args);
       test_count ← merge_jsonl env test_files (output_test args);
       print (merged_message (length train_files) "train"
                (output_train args) train_count);;
       print (merged_message (length test_files) "test"
                (output_test args) test_count))
      (log (EvGlob (input_dir args) (test_pattern args))
         (log (EvGlob (input_dir args) (train_pattern args)) w)).
Proof.
  intros Hdir Htrain Htest.
  unfold main. unfold mbind at 1, M_bind at 1, bind at 1, get. cbv beta iota.
  rewrite Hdir, (is_dir_exists _ _ _ Hdir). cbn [negb orb].
  unfold mbind at 1, M_bind at 1, bind at 1.
  rewrite (collect_files_result _ _ _ _ _ Htrain).
  unfold mbind at 1, M_bind at 1, bind at 1.
  by rewrite (collect_files_result _ _ _ (log _ w) test_files Htest).
Qed.

Lemma ancestors_mono depth depth' p :
  depth ≤ depth' → ancestors depth p ⊆ ancestors depth' p.
Proof.
  revert depth' p. induction depth as [|depth IH]; intros depth' p Hle q Hq.
  - apply list_elem_of_singleton in Hq as ->. destruct depth'; by left.
  - destruct depth' as [|depth']; [lia|].
    simpl in *. apply elem_of_cons in Hq as [->|Hq]; [by left|].
    right. eapply IH; [|done]. lia.
Qed.

Lemma on_the_way_ancestors ns p q :
  on_the_way env ns p q → q ∈ ancestors (length p) p.
Proof.
  induction 1 as [p|p q Hnone Hway IH].
  - destruct (length p); by left.
  - destruct (decide (parent p = p)) as [E|E]; [by rewrite E in IH|].
    apply parent_shorter in E.
    destruct (length p) as [|n] eqn:Hn; [lia|].
    simpl. right. eapply ancestors_mono; [|exact IH]. lia.
Qed.

Lemma creatable_kept out keys w w1 p :
  others_kept env out keys w w1 →
  (∀ q, on_the_way env (nodes w) p q → resolve env q ≠ resolve env out) →
  creatable env (nodes w) p → creatable env (nodes w1) p.
Proof.
  intros Hkept Hway Hp. induction Hp as [p Hdir|p Hnone Hlink Hp IH].
  - apply creatable_here. eapply others_kept_Some; [done| |done].
    apply Hway, on_the_way_here.
  - destruct (Hkept (resolve env p)) as [E|(_ & E & _)].
    + apply Hway, on_the_way_here.
    + apply creatable_below; [congruence|done|]. apply IH.
      intros q Hq. apply Hway. by apply on_the_way_above.
    + by apply creatable_here.
Qed.

(** A destination that could be written before a merge into another one
    can still be written after it. *)
Lemma writable_kept out1 out2 w w1 :
  others_kept env out1 (resolve env <$> output_dirs out1) w w1 →
  separate env out1 out2 →
  writable env w out2 → writable env w1 out2.
Proof.
  intros Hkept (Hne & Hdirs2 & Hdirs1) [Hdir Hout]. split.
  - eapply creatable_kept; [done| |done].
    intros q Hq%on_the_way_ancestors Heq.
    apply Hdirs2. rewrite <-Heq. by apply list_elem_of_fmap_2.
  - unfold stat in *.
    destruct (Hkept (resolve env out2)) as [E|(_ & _ & E)];
      [done|by rewrite E|done].
Qed.

Lemma hold_kept out keys w w1 files contents :
  others_kept env out keys w w1 → apart env files out →
  hold env w files contents → hold env w1 files contents.
Proof.
  intros Hkept Hapart Hhold. unfold hold, apart in *. revert Hapart.
  induction Hhold as [|file content files contents Hfile _ IH]; [constructor|].
  rewrite fmap_cons, not_elem_of_cons. intros [Hne Hrest].
  constructor; [|by apply IH].
  unfold stat in *. by eapply others_kept_Some.
Qed.

Lemma merge_event_not_print files out ev :
  merge_event files out ev → ¬ is_print ev.
Proof. destruct ev; simpl; tauto. Qed.

End main_facts.

(** X11.  When the input directory is there, both patterns select
    something and the two destinations can be written and are not in each
    other's way, [main] returns: the train output holds the merge of the
    train files, the test output the merge of the test files, and the last
    two things the run does are the two reports, with the number of files
    and of lines of each split.  The condition C1 puts on the inputs of a
    merge, that none of them is the output, is met by the selection. *)
Theorem main_merges env args w train_files test_files
    train_contents test_contents :
  is_dir env w (input_dir args) = true →
  (collect_files env (input_dir args) (train_pattern args)
     [output_train args; output_test args] w).2 = Ok train_files →
  (collect_files env (input_dir args) (test_pattern args)
     [output_train args; output_test args] w).2 = Ok test_files →
  train_files ≠ [] →
  test_files ≠ [] →
  hold env w train_files train_contents →
  hold env w test_files test_contents →
  writable env w (output_train args) →
  writable env w (output_test args) →
  separate env (output_train args) (output_test args) →
  ∃ w' evs,
    main env args w = (w', Ok tt) ∧
    stat env w' (output_train args) =
      Some (RegularFile (merged_text train_contents)) ∧
    stat env w' (output_test args) =
      Some (RegularFile (merged_text test_contents)) ∧
    trace w' =
      trace w ++ evs ++
        [EvPrint (merged_message (length train_files) "train"
                    (output_train args) (count_nonblank train_contents));
         EvPrint (merged_message (length test_files) "test"
                    (output_test args) (count_nonblank test_contents))] ∧
    Forall (λ ev, ¬ is_print ev) evs.
Proof.
  intros Hdir Htrain Htest Hsome1 Hsome2 Hhold1 Hhold2 Hout1 Hout2 Hsep.
  rewrite (main_run env args w train_files test_files) by done.
  rewrite !bool_decide_eq_false_2 by done.
  set (w0 := log _ (log _ w)).
  assert (apart env train_files (output_train args)) as Hapart1.
  { eapply collect_files_apart; [exact Htrain|]. by left. }
  assert (apart env test_files (output_train args)) as Hapart21.
  { eapply collect_files_apart; [exact Htest|]. by left. }
  assert (apart env test_files (output_test args)) as Hapart2.
  { eapply collect_files_apart; [exact Htest|]. right. by left. }
  destruct (merge_jsonl_run env train_files train_contents (output_train args) w0)
    as (w1 & Hrun1 & Hfile1 & _); [done..|].
  pose proof (steps_merge_jsonl_kept _ _ _ _ _ _ Hrun1) as Hkept1.
  destruct (steps_merge_jsonl_emits _ _ _ _ _ _ Hrun1) as (evs1 & Htrace1 & Hevs1).
  destruct (merge_jsonl_run env test_files test_contents (output_test args) w1)
    as (w2 & Hrun2 & Hfile2 & _).
  { by eapply hold_kept; [exact Hkept1|..]. }
  { done. }
  { by eapply writable_kept; [exact Hkept1|..]. }
  pose proof (steps_merge_jsonl_kept _ _ _ _ _ _ Hrun2) as Hkept2.
  destruct (steps_merge_jsonl_emits _ _ _ _ _ _ Hrun2) as (evs2 & Htrace2 & Hevs2).
  unfold mbind, M_bind, bind, print, emit. rewrite Hrun1, Hrun2.
  eexists _,
    ([EvGlob (input_dir args) (train_pattern args);
      EvGlob (input_dir args) (test_pattern args)] ++ evs1 ++ evs2).
  destruct Hsep as (Hne & _ & _).
  split; [reflexivity|]. split_and!.
  - unfold stat in *. simpl. eapply others_kept_Some; [exact Hkept2|done..].
  - done.
  - simpl. rewrite Htrace2, Htrace1. simpl. by rewrite <-!app_assoc.
  - repeat constructor; try (by intros []).
    apply Forall_app. split; eapply Forall_impl; eauto using merge_event_not_print.
Qed.

Lemma main_merges_witness :
  is_dir demo_env demo_world (input_dir default_args) = true ∧
  (collect_files demo_env (input_dir default_args) (train_pattern default_args)
     [output_train default_args; output_test default_args] demo_world).2 =
    Ok train_inputs ∧
  (collect_files demo_env (input_dir default_args) (test_pattern default_args)
     [output_train default_args; output_test default_args] demo_world).2 =
    Ok [["json_output"; "test_a.json"]] ∧
  train_inputs ≠ [] ∧
  [["json_output"; "test_a.json"]] ≠ [] ∧
  hold demo_env demo_world train_inputs [train_0; train_1] ∧
  hold demo_env demo_world [["json_output"; "test_a.json"]] [test_a] ∧
  writable demo_env demo_world (output_train default_args) ∧
  writable demo_env demo_world (output_test default_args) ∧
  separate demo_env (output_train default_args) (output_test default_args) ∧
  ∃ w' evs,
    main demo_env default_args demo_world = (w', Ok tt) ∧
    stat demo_env w' (output_train default_args) =
      Some (RegularFile (merged_text [train_0; train_1])) ∧
    stat demo_env w' (output_test default_args) =
      Some (RegularFile (merged_text [test_a])) ∧
    trace w' =
      trace demo_world ++ evs ++
        [EvPrint (merged_message (length train_inputs) "train"
                    (output_train default_args)
                    (count_nonblank [train_0; train_1]));
         EvPrint (merged_message (length [["json_output"; "test_a.json"]]) "test"
                    (output_test default_args) (count_nonblank [test_a]))] ∧
    Forall (λ ev, ¬ is_print ev) evs.
Proof.
  assert (hold demo_env demo_world [["json_output"; "test_a.json"]] [test_a])
    as Hhold by repeat constructor.
  assert (writable demo_env demo_world (output_test default_args)) as Hout.
  { split; [by apply creatable_here|decide_by_computation]. }
  assert (separate demo_env (output_train default_args)
            (output_test default_args)) as Hsep.
  { unfold separate. split_and!; decide_by_computation. }
  split; [reflexivity|]. split; [by vm_compute|]. split; [by vm_compute|].
  split; [discriminate|]. split; [discriminate|].
  split; [apply demo_hold_train|]. split; [exact Hhold|].
  split; [apply demo_writable_train|]. split; [exact Hout|].
  split; [exact Hsep|].
  apply (main_merges demo_env default_args demo_world train_inputs
           [["json_output"; "test_a.json"]] [train_0; train_1] [test_a]);
    [reflexivity|by vm_compute|by vm_compute|discriminate|discriminate
    |apply demo_hold_train|exact Hhold|apply demo_writable_train|exact Hout
    |exact Hsep].
Defined.

(** ** The exceptions of a merge *)

Section raises_facts.
Context (P : exn → Prop).

Lemma raises_ret {A} (a : A) : raises P (ret a).
Proof. by intros w w' e. Qed.

Lemma raises_raise {A} e : P e → raises P (raise (A := A) e).
Proof. by intros He w w' e' [= _ <-]. Qed.

Lemma raises_emit ev : raises P (emit ev).
Proof. by intros w w' e. Qed.

Lemma raises_modify f : raises P (modify f).
Proof. by intros w w' e. Qed.

Lemma raises_bind {A B} (m : M A) (f : A → M B) :
  raises P m → (∀ a, raises P (f a)) → raises P (m ≫= f).
Proof.
  intros Hm Hf w w' e. unfold mbind, M_bind, bind.
  destruct (m w) as [w1 [a|e1]] eqn:Hrun.
  - apply Hf.
  - intros [= _ <-]. by eapply Hm.
Qed.

Lemma raises_get {A} (f : World → M A) :
  (∀ w, raises P (f w)) → raises P (get ≫= f).
Proof. intros Hf w w' e. apply Hf. Qed.

Lemma raises_catch {A} (m : M A) (handler : exn → M A) :
  raises P m → (∀ e, P e → raises P (handler e)) → raises P (catch m handler).
Proof.
  intros Hm Hh w w' e. unfold catch.
  destruct (m w) as [w1 [a|e1]] eqn:Hrun; [done|].
  apply Hh. by eapply Hm.
Qed.

Lemma raises_finally {A} (m : M A) cleanup :
  raises P m → raises P (finally m cleanup).
Proof.
  intros Hm w w' e. unfold finally.
  destruct (m w) as [w1 r] eqn:Hrun. intros [= _ ->]. by eapply Hm.
Qed.

Lemma raises_for_each {A S} (l : list A) (body : S → A → M S) s :
  (∀ s x, raises P (body s x)) → raises P (for_each l body s).
Proof.
  intros Hbody. revert s. induction l as [|x l IH]; intros s; simpl.
  - apply raises_ret.
  - apply raises_bind; [apply Hbody|apply IH].
Qed.

End raises_facts.

Section merge_raises.
Context (env : Env).

Lemma raises_no_directory {A} w p q :
  raises not_exit (raise (A := A) (no_directory env w p q)).
Proof.
  apply raises_raise. by destruct (no_directory_cases env w p q) as [-> | ->].
Qed.

Lemma raises_os_mkdir p : raises not_exit (os_mkdir env p).
Proof.
  apply raises_bind; [apply raises_emit|]. intros _.
  apply raises_get. intros w.
  destruct (lexists env w p); [by apply raises_raise|].
  destruct (stat env w (parent p)) as [[]|];
    first [apply raises_modify|apply raises_no_directory].
Qed.

Lemma raises_unless_is_dir p e :
  not_exit e → raises not_exit (unless_is_dir env p e).
Proof.
  intros He. apply raises_get. intros w.
  destruct (is_dir env w p); [apply raises_ret|by apply raises_raise].
Qed.

Lemma raises_mkdir_exist_ok p : raises not_exit (mkdir_exist_ok env p).
Proof.
  apply raises_catch; [apply raises_os_mkdir|].
  intros [] He; try (by apply raises_unless_is_dir); by apply raises_raise.
Qed.

Lemma raises_mkdir_parents depth p : raises not_exit (mkdir_parents env depth p).
Proof.
  revert p. induction depth as [|depth IH]; intros p; simpl;
    (apply raises_catch; [apply raises_os_mkdir|]);
    intros [] He; try (by apply raises_unless_is_dir);
    destruct (is_anchor p); try (by apply raises_raise).
  apply raises_bind; [apply IH|]. intros _. apply raises_mkdir_exist_ok.
Qed.

Lemma raises_open_write p : raises not_exit (open_write env p).
Proof.
  apply raises_bind; [apply raises_emit|]. intros _.
  apply raises_get. intros w.
  destruct (stat env w p) as [[]|];
    try first [apply raises_modify|by apply raises_raise].
  destruct (stat env w (directory_of env p)) as [[]|];
    first [apply raises_modify|apply raises_no_directory].
Qed.

Lemma raises_merge_line out n line : raises not_exit (merge_line env out n line).
Proof.
  unfold merge_line. destruct (negb (truthy (strip line))); [apply raises_ret|].
  apply raises_bind; [|intros _; apply raises_ret].
  apply raises_get. intros w.
  destruct (pending w !! resolve env out);
    [apply raises_modify|by apply raises_raise].
Qed.

Lemma raises_merge_file out n file : raises not_exit (merge_file env out n file).
Proof.
  apply raises_bind.
  - apply raises_bind; [apply raises_emit|]. intros _.
    apply raises_get. intros w.
    destruct (stat env w file) as [[]|];
      try first [apply raises_ret|by apply raises_raise
                |apply raises_no_directory].
    destruct (device_text w (resolve env file) _);
      [apply raises_ret|by apply raises_raise].
  - intros infile. apply raises_for_each. intros. apply raises_merge_line.
Qed.

(** A merge ends in no [SystemExit]: the exits are [main]'s own. *)
Lemma raises_merge_jsonl files out : raises not_exit (merge_jsonl env files out).
Proof.
  apply raises_bind; [apply raises_mkdir_parents|]. intros _.
  apply raises_bind; [apply raises_open_write|]. intros _.
  apply raises_finally, raises_for_each. intros. apply raises_merge_file.
Qed.

End merge_raises.

(** ** How [main] can end *)

Section main_outcomes.
Context (env : Env).
Implicit Types (w : World) (args : Args).

(** An empty selection is a selection of nothing. *)
Lemma collect_files_nothing d pattern outs w :
  (collect_files env d pattern outs w).2 = Ok [] ↔
  selects_nothing env w d pattern outs.
Proof.
  split.
  - rewrite collect_files_run. cbn [snd]. intros [= Hfiles].
    apply Forall_forall. intros p Hp.
    destruct (is_file env w p) eqn:Hfile; [|by left]. right.
    destruct (decide (resolve env p ∈ resolve env <$> outs)) as [|Hout]; [done|].
    assert (p ∈ @nil Path) as Hin; [|by apply elem_of_nil in Hin].
    rewrite <-Hfiles. by apply elem_of_selection.
  - intros Hnone. by rewrite selects_nothing_run.
Qed.

(** The ways through [main]: the directory is missing; the train
    selection is empty; the test selection is; the train merge fails; the
    test merge fails; both merges are done and reported. *)
Lemma main_cases args w w' r :
  main env args w = (w', r) →
  (is_dir env w (input_dir args) = false ∧ w' = w ∧
   r = Raise (SystemExit (not_found_message (input_dir args)))) ∨
  (is_dir env w (input_dir args) = true ∧
   ∃ train_files test_files w0,
     (collect_files env (input_dir args) (train_pattern args)
        [output_train args; output_test args] w).2 = Ok train_files ∧
     (collect_files env (input_dir args) (test_pattern args)
        [output_train args; output_test args] w).2 = Ok test_files ∧
     w0 = log (EvGlob (input_dir args) (test_pattern args))
            (log (EvGlob (input_dir args) (train_pattern args)) w) ∧
     ((train_files = [] ∧ w' = w0 ∧
       r = Raise (SystemExit (no_files_message "train" (train_pattern args)
                                (input_dir args)))) ∨
      (train_files ≠ [] ∧ test_files = [] ∧ w' = w0 ∧
       r = Raise (SystemExit (no_files_message "test" (test_pattern args)
                                (input_dir args)))) ∨
      (train_files ≠ [] ∧ test_files ≠ [] ∧
       ((∃ e, merge_jsonl env train_files (output_train args) w0 = (w', Raise e) ∧
              r = Raise e) ∨
        (∃ w1 n1,
           merge_jsonl env train_files (output_train args) w0 = (w1, Ok n1) ∧
           ((∃ e, merge_jsonl env test_files (output_test args) w1 =
                    (w', Raise e) ∧ r = Raise e) ∨
            (∃ w2 n2,
               merge_jsonl env test_files (output_test args) w1 = (w2, Ok n2) ∧
               w' = log (EvPrint (merged_message (length test_files) "test"
                                    (output_test args) n2))
                      (log (EvPrint (merged_message (length train_files) "train"
                                       (output_train args) n1)) w2) ∧
               r = Ok tt))))))).
Proof.
  destruct (is_dir env w (input_dir args)) eqn:Hdir.
  - intros Hrun. right. split; [done|].
    pose proof (collect_files_run env (input_dir args) (train_pattern args)
                  [output_train args; output_test args] w) as Htrain.
    pose proof (collect_files_run env (input_dir args) (test_pattern args)
                  [output_train args; output_test args] w) as Htest.
    apply (f_equal snd) in Htrain, Htest. cbn [snd] in Htrain, Htest.
    revert Htrain Htest.
    generalize (filter (λ path, is_file env w path ∧
                          resolve env path ∉
                            (list_to_set (resolve env <$>
                               [output_train args; output_test args]) : gset Path))
                  (sorted (glob env (input_dir args) (train_pattern args)))).
    intros train_files.
    generalize (filter (λ path, is_file env w path ∧
                          resolve env path ∉
                            (list_to_set (resolve env <$>
                               [output_train args; output_test args]) : gset Path))
                  (sorted (glob env (input_dir args) (test_pattern args)))).
    intros test_files Htrain Htest.
    exists train_files, test_files. eexists.
    split; [done|]. split; [done|]. split; [done|].
    rewrite (main_run env args w train_files test_files) in Hrun by done.
    case_bool_decide as Hsome1; [left; by injection Hrun as <- <-|].
    case_bool_decide as Hsome2; [right; left; by injection Hrun as <- <-|].
    right. right. split; [done|]. split; [done|].
    revert Hrun. unfold mbind, M_bind, bind, print, emit.
    destruct (merge_jsonl env train_files (output_train args) _)
      as [w1 [n1|e1]]; [|intros [= <- <-]; left; eauto].
    right. exists w1, n1. split; [done|].
    destruct (merge_jsonl env test_files (output_test args) w1)
      as [w2 [n2|e2]]; [|revert Hrun; intros [= <- <-]; left; eauto].
    right. exists w2, n2. by injection Hrun as <- <-.
  - unfold main, mbind, M_bind, bind, get. cbv beta iota.
    rewrite Hdir, orb_true_r. intros [= <- <-]. by left.
Qed.

End main_outcomes.

(** X12.  When both splits are given the same output path, [main] returns
    all the same and reports both merges, but the file holds the test
    lines only: the second merge opens it anew and the train lines, which
    the first report still counts, are gone. *)
Theorem main_same_output env args w train_files test_files
    train_contents test_contents :
  output_train args = output_test args →
  is_dir env w (input_dir args) = true →
  (collect_files env (input_dir args) (train_pattern args)
     [output_train args; output_test args] w).2 = Ok train_files →
  (collect_files env (input_dir args) (test_pattern args)
     [output_train args; output_test args] w).2 = Ok test_files →
  train_files ≠ [] →
  test_files ≠ [] →
  hold env w train_files train_contents →
  hold env w test_files test_contents →
  writable env w (output_test args) →
  ∃ w' evs,
    main env args w = (w', Ok tt) ∧
    stat env w' (output_test args) =
      Some (RegularFile (merged_text test_contents)) ∧
    trace w' =
      trace w ++ evs ++
        [EvPrint (merged_message (length train_files) "train"
                    (output_test args) (count_nonblank train_contents));
         EvPrint (merged_message (length test_files) "test"
                    (output_test args) (count_nonblank test_contents))].
Proof.
  intros Hsame Hdir Htrain Htest Hsome1 Hsome2 Hhold1 Hhold2 Hout.
  rewrite (main_run env args w train_files test_files) by done.
  rewrite !bool_decide_eq_false_2 by done.
  set (w0 := log _ (log _ w)).
  assert (apart env train_files (output_test args)) as Hapart1.
  { eapply collect_files_apart; [exact Htrain|]. right. by left. }
  assert (apart env test_files (output_test args)) as Hapart2.
  { eapply collect_files_apart; [exact Htest|]. right. by left. }
  rewrite Hsame.
  destruct (merge_jsonl_run env train_files train_contents (output_test args) w0)
    as (w1 & Hrun1 & Hfile1 & Hway & _); [done..|].
  pose proof (steps_merge_jsonl_kept _ _ _ _ _ _ Hrun1) as Hkept1.
  destruct (steps_merge_jsonl_emits _ _ _ _ _ _ Hrun1) as (evs1 & Htrace1 & _).
  destruct (merge_jsonl_run env test_files test_contents (output_test args) w1)
    as (w2 & Hrun2 & Hfile2 & _).
  { by eapply hold_kept; [exact Hkept1|..]. }
  { done. }
  { split.
    - apply creatable_here. apply Hway, on_the_way_here.
    - by rewrite Hfile1. }
  destruct (steps_merge_jsonl_emits _ _ _ _ _ _ Hrun2) as (evs2 & Htrace2 & _).
  unfold mbind, M_bind, bind, print, emit. rewrite Hrun1, Hrun2.
  eexists _,
    ([EvGlob (input_dir args) (train_pattern args);
      EvGlob (input_dir args) (test_pattern args)] ++ evs1 ++ evs2).
  split; [reflexivity|]. split; [done|].
  simpl. rewrite Htrace2, Htrace1. simpl. by rewrite <-!app_assoc.
Qed.

Lemma main_same_output_witness :
  output_train (mkArgs ["json_output"] "*train*.json" "*test*.json"
                  ["unified_train.json"] ["unified_train.json"]) =
    output_test (mkArgs ["json_output"] "*train*.json" "*test*.json"
                   ["unified_train.json"] ["unified_train.json"]) ∧
  is_dir demo_env demo_world ["json_output"] = true ∧
  (collect_files demo_env ["json_output"] "*train*.json"
     [["unified_train.json"]; ["unified_train.json"]] demo_world).2 =
    Ok train_inputs ∧
  (collect_files demo_env ["json_output"] "*test*.json"
     [["unified_train.json"]; ["unified_train.json"]] demo_world).2 =
    Ok [["json_output"; "test_a.json"]] ∧
  train_inputs ≠ [] ∧
  [["json_output"; "test_a.json"]] ≠ [] ∧
  hold demo_env demo_world train_inputs [train_0; train_1] ∧
  hold demo_env demo_world [["json_output"; "test_a.json"]] [test_a] ∧
  writable demo_env demo_world ["unified_train.json"] ∧
  ∃ w' evs,
    main demo_env
      (mkArgs ["json_output"] "*train*.json" "*test*.json"
         ["unified_train.json"] ["unified_train.json"]) demo_world =
      (w', Ok tt) ∧
    stat demo_env w' ["unified_train.json"] =
      Some (RegularFile (merged_text [test_a])) ∧
    trace w' =
      trace demo_world ++ evs ++
        [EvPrint (merged_message (length train_inputs) "train"
                    ["unified_train.json"] (count_nonblank [train_0; train_1]));
         EvPrint (merged_message (length [["json_output"; "test_a.json"]]) "test"
                    ["unified_train.json"] (count_nonblank [test_a]))].
Proof.
  assert (hold demo_env demo_world [["json_output"; "test_a.json"]] [test_a])
    as Hhold by repeat constructor.
  split; [reflexivity|]. split; [reflexivity|].
  split; [by vm_compute|]. split; [by vm_compute|].
  split; [discriminate|]. split; [discriminate|].
  split; [apply demo_hold_train|]. split; [exact Hhold|].
  split; [apply demo_writable_train|].
  apply (main_same_output demo_env
           (mkArgs ["json_output"] "*train*.json" "*test*.json"
              ["unified_train.json"] ["unified_train.json"])
           demo_world train_inputs [["json_output"; "test_a.json"]]
           [train_0; train_1] [test_a]);
    [reflexivity|reflexivity|by vm_compute|by vm_compute|discriminate
    |discriminate|apply demo_hold_train|exact Hhold|apply demo_writable_train].
Defined.

(** X13.  The train selection is looked at first: when it is empty the
    exit names the train pattern, whatever the test pattern selects, and
    the exit names the test pattern only when the train selection is not
    empty. *)
Theorem main_reports_train_first env args w :
  is_dir env w (input_dir args) = true →
  (selects_nothing env w (input_dir args) (train_pattern args)
     [output_train args; output_test args] →
   ∃ w', main env args w =
           (w', Raise (SystemExit (no_files_message "train" (train_pattern args)
                                     (input_dir args))))) ∧
  (¬ selects_nothing env w (input_dir args) (train_pattern args)
       [output_train args; output_test args] →
   selects_nothing env w (input_dir args) (test_pattern args)
     [output_train args; output_test args] →
   ∃ w', main env args w =
           (w', Raise (SystemExit (no_files_message "test" (test_pattern args)
                                     (input_dir args))))).
Proof.
  intros Hdir. split.
  - intros Htrain%collect_files_nothing.
    rewrite (main_run env args w [] _ Hdir Htrain eq_refl).
    rewrite bool_decide_eq_true_2 by done. by eexists.
  - intros Htrain Htest%collect_files_nothing.
    rewrite (main_run env args w _ [] Hdir eq_refl Htest).
    rewrite bool_decide_eq_false_2.
    + rewrite bool_decide_eq_true_2 by done. by eexists.
    + intros Hnil. apply Htrain, collect_files_nothing.
      exact (f_equal Ok Hnil).
Qed.

Lemma main_reports_train_first_witness :
  is_dir demo_env demo_world ["json_output"] = true ∧
  selects_nothing demo_env demo_world ["json_output"] "*.csv"
    [["unified_train.json"]; ["unified_test.json"]] ∧
  ¬ selects_nothing demo_env demo_world ["json_output"] "*train*.json"
      [["unified_train.json"]; ["unified_test.json"]] ∧
  selects_nothing demo_env demo_world ["json_output"] "*.tsv"
    [["unified_train.json"]; ["unified_test.json"]] ∧
  (∃ w', main demo_env
           (mkArgs ["json_output"] "*.csv" "*.tsv"
              ["unified_train.json"] ["unified_test.json"]) demo_world =
           (w', Raise (SystemExit (no_files_message "train" "*.csv"
                                     ["json_output"])))) ∧
  (∃ w', main demo_env
           (mkArgs ["json_output"] "*train*.json" "*.tsv"
              ["unified_train.json"] ["unified_test.json"]) demo_world =
           (w', Raise (SystemExit (no_files_message "test" "*.tsv"
                                     ["json_output"])))).
Proof.
  assert (¬ selects_nothing demo_env demo_world ["json_output"] "*train*.json"
              [["unified_train.json"]; ["unified_test.json"]]) as Hsome.
  { unfold selects_nothing. apply (bool_decide_unpack _). vm_compute. exact I. }
  split; [reflexivity|]. split; [constructor|]. split; [exact Hsome|].
  split; [constructor|]. split.
  - apply (main_reports_train_first demo_env
             (mkArgs ["json_output"] "*.csv" "*.tsv"
                ["unified_train.json"] ["unified_test.json"]) demo_world);
      [reflexivity|constructor].
  - apply (main_reports_train_first demo_env
             (mkArgs ["json_output"] "*train*.json" "*.tsv"
                ["unified_train.json"] ["unified_test.json"]) demo_world);
      [reflexivity|exact Hsome|constructor].
Defined.

(** X14.  The two merges are not one transaction.  When the test output
    names a directory, [main] is stopped by [IsADirectoryError] in the
    second merge: by then the train output has been written in full, and
    nothing is reported. *)
Theorem main_test_output_is_directory env args w train_files test_files
    train_contents :
  is_dir env w (input_dir args) = true →
  (collect_files env (input_dir args) (train_pattern args)
     [output_train args; output_test args] w).2 = Ok train_files →
  (collect_files env (input_dir args) (test_pattern args)
     [output_train args; output_test args] w).2 = Ok test_files →
  train_files ≠ [] →
  test_files ≠ [] →
  hold env w train_files train_contents →
  writable env w (output_train args) →
  stat env w (output_test args) = Some Directory →
  stat env w (parent (output_test args)) = Some Directory →
  ∃ w' evs,
    main env args w = (w', Raise (IsADirectoryError (output_test args))) ∧
    stat env w' (output_train args) =
      Some (RegularFile (merged_text train_contents)) ∧
    trace w' = trace w ++ evs ∧
    Forall (λ ev, ¬ is_print ev) evs.
Proof.
  intros Hdir Htrain Htest Hsome1 Hsome2 Hhold1 Hout1 Hout2 Hparent2.
  rewrite (main_run env args w train_files test_files) by done.
  rewrite !bool_decide_eq_false_2 by done.
  set (w0 := log _ (log _ w)).
  assert (apart env train_files (output_train args)) as Hapart1.
  { eapply collect_files_apart; [exact Htrain|]. by left. }
  assert (∀ q, stat env w q = Some Directory →
               resolve env q ≠ resolve env (output_train args)) as Hne.
  { intros q Hq Heq. destruct Hout1 as [_ Hout1]. unfold stat in *.
    rewrite <-Heq, Hq in Hout1. done. }
  destruct (merge_jsonl_run env train_files train_contents (output_train args) w0)
    as (w1 & Hrun1 & Hfile1 & _ & _ & Hkeep); [done..|].
  destruct (steps_merge_jsonl_emits _ _ _ _ _ _ Hrun1) as (evs1 & Htrace1 & Hevs1).
  unfold mbind, M_bind, bind. rewrite Hrun1.
  rewrite merge_jsonl_onto_directory.
  - eexists _,
      ([EvGlob (input_dir args) (train_pattern args);
        EvGlob (input_dir args) (test_pattern args)] ++ evs1 ++
       [EvMkdir (parent (output_test args)); EvOpenWrite (output_test args)]).
    split; [reflexivity|]. split; [done|]. split.
    + simpl. rewrite Htrace1. simpl. by rewrite <-!app_assoc.
    + repeat constructor; try (by intros []).
      apply Forall_app. split.
      * eapply Forall_impl; eauto using merge_event_not_print.
      * repeat constructor; by intros [].
  - unfold stat in *. apply Hkeep; [|done]. by apply Hne.
  - unfold stat in *. apply Hkeep; [|done]. by apply Hne.
Qed.

Lemma main_test_output_is_directory_witness :
  is_dir demo_env demo_world ["json_output"] = true ∧
  (collect_files demo_env ["json_output"] "*train*.json"
     [["unified_train.json"]; ["json_output"; "a"]] demo_world).2 =
    Ok train_inputs ∧
  (collect_files demo_env ["json_output"] "*test*.json"
     [["unified_train.json"]; ["json_output"; "a"]] demo_world).2 =
    Ok [["json_output"; "test_a.json"]] ∧
  train_inputs ≠ [] ∧
  [["json_output"; "test_a.json"]] ≠ [] ∧
  hold demo_env demo_world train_inputs [train_0; train_1] ∧
  writable demo_env demo_world ["unified_train.json"] ∧
  stat demo_env demo_world ["json_output"; "a"] = Some Directory ∧
  stat demo_env demo_world (parent ["json_output"; "a"]) = Some Directory ∧
  ∃ w' evs,
    main demo_env
      (mkArgs ["json_output"] "*train*.json" "*test*.json"
         ["unified_train.json"] ["json_output"; "a"]) demo_world =
      (w', Raise (IsADirectoryError ["json_output"; "a"])) ∧
    stat demo_env w' ["unified_train.json"] =
      Some (RegularFile (merged_text [train_0; train_1])) ∧
    trace w' = trace demo_world ++ evs ∧
    Forall (λ ev, ¬ is_print ev) evs.
Proof.
  split; [reflexivity|]. split; [by vm_compute|]. split; [by vm_compute|].
  split; [discriminate|]. split; [discriminate|].
  split; [apply demo_hold_train|]. split; [apply demo_writable_train|].
  split; [reflexivity|]. split; [reflexivity|].
  apply (main_test_output_is_directory demo_env
           (mkArgs ["json_output"] "*train*.json" "*test*.json"
              ["unified_train.json"] ["json_output"; "a"])
           demo_world train_inputs [["json_output"; "test_a.json"]]
           [train_0; train_1]);
    [reflexivity|by vm_compute|by vm_compute|discriminate|discriminate
    |apply demo_hold_train|apply demo_writable_train|reflexivity|reflexivity].
Defined.

(** X15.  An exit with a message is an exit before anything is written.
    When [main] ends in [SystemExit], no file or directory has changed
    and nothing is open, and the message tells which check failed: the
    directory one when the input directory is no directory, the train one
    when the train pattern selects nothing, the test one when the train
    pattern selects something and the test pattern nothing.  A failure
    inside a merge is never a [SystemExit]. *)
Theorem main_exit env args w w' msg :
  main env args w = (w', Raise (SystemExit msg)) →
  nodes w' = nodes w ∧
  pending w' = pending w ∧
  ((is_dir env w (input_dir args) = false ∧
    msg = not_found_message (input_dir args) ∧
    trace w' = trace w) ∨
   (is_dir env w (input_dir args) = true ∧
    trace w' = trace w ++ [EvGlob (input_dir args) (train_pattern args);
                           EvGlob (input_dir args) (test_pattern args)] ∧
    ((selects_nothing env w (input_dir args) (train_pattern args)
        [output_train args; output_test args] ∧
      msg = no_files_message "train" (train_pattern args) (input_dir args)) ∨
     (¬ selects_nothing env w (input_dir args) (train_pattern args)
          [output_train args; output_test args] ∧
      selects_nothing env w (input_dir args) (test_pattern args)
        [output_train args; output_test args] ∧
      msg = no_files_message "test" (test_pattern args) (input_dir args))))).
Proof.
  intros [(Hdir & -> & [= ->])
         |(Hdir & train_files & test_files & w0 & Htrain & Htest & -> & Hcase)]
         %main_cases.
  { split; [done|]. split; [done|]. by left. }
  assert (∀ e, Raise (A := unit) (SystemExit msg) = Raise e → ¬ not_exit e)
    as Hexit.
  { intros e [= <-]. simpl. tauto. }
  destruct Hcase as [(-> & -> & [= ->])|[(Hsome & -> & -> & [= ->])|Hcase]].
  - split; [done|]. split; [done|]. right. split; [done|].
    split; [simpl; by rewrite <-app_assoc|]. left.
    split; [by apply collect_files_nothing|done].
  - split; [done|]. split; [done|]. right. split; [done|].
    split; [simpl; by rewrite <-app_assoc|]. right.
    split; [|split; [by apply collect_files_nothing|done]].
    intros Hnone%collect_files_nothing. congruence.
  - exfalso.
    destruct Hcase as (_ & _ & [(e & Hrun & He)
                                |(w1 & n1 & _ & [(e & Hrun & He)|(? & ? & _ & _ & ?)])]);
      [| |done]; eapply Hexit, raises_merge_jsonl; eauto.
Qed.

Lemma main_exit_witness :
  main demo_env
    (mkArgs ["json_output"] "*train*.json" "*.tsv"
       ["unified_train.json"] ["unified_test.json"]) demo_world =
    ((main demo_env
        (mkArgs ["json_output"] "*train*.json" "*.tsv"
           ["unified_train.json"] ["unified_test.json"]) demo_world).1,
     Raise (SystemExit "No test files matched pattern '*.tsv' in json_output")) ∧
  nodes (main demo_env
           (mkArgs ["json_output"] "*train*.json" "*.tsv"
              ["unified_train.json"] ["unified_test.json"]) demo_world).1 =
    nodes demo_world.
Proof.
  assert (main demo_env
            (mkArgs ["json_output"] "*train*.json" "*.tsv"
               ["unified_train.json"] ["unified_test.json"]) demo_world =
          ((main demo_env
              (mkArgs ["json_output"] "*train*.json" "*.tsv"
                 ["unified_train.json"] ["unified_test.json"]) demo_world).1,
           Raise (SystemExit
                    "No test files matched pattern '*.tsv' in json_output")))
    as Hrun.
  { apply (run_result (main demo_env _) demo_world). by vm_compute. }
  split; [exact Hrun|].
  apply (main_exit demo_env _ demo_world _ _ Hrun).
Defined.

Lemma others_kept_both env out1 out2 keys1 keys2 w w1 w2 k :
  others_kept env out1 keys1 w w1 →
  others_kept env out2 keys2 w1 w2 →
  k ≠ resolve env out1 → k ≠ resolve env out2 →
  nodes w2 !! k = nodes w !! k ∨
  (nodes w !! k = None ∧ nodes w2 !! k = Some Directory ∧ k ∈ keys1 ++ keys2).
Proof.
  intros Hk1 Hk2 Hne1 Hne2.
  destruct (Hk1 k Hne1) as [E1|(E1 & D1 & K1)],
           (Hk2 k Hne2) as [E2|(E2 & D2 & K2)].
  - left. congruence.
  - right. split_and!; [congruence|done|]. apply elem_of_app. by right.
  - right. split_and!; [done|congruence|]. apply elem_of_app. by left.
  - congruence.
Qed.

(** X16.  However [main] ends, the two outputs are the only files it can
    have changed: every other path leads to what it led to before, or to
    a new directory on the way to one of the outputs where there was
    nothing.  No input file is changed, moved or removed. *)
Theorem main_keeps_others env args w w' r k :
  main env args w = (w', r) →
  k ≠ resolve env (output_train args) →
  k ≠ resolve env (output_test args) →
  nodes w' !! k = nodes w !! k ∨
  (nodes w !! k = None ∧ nodes w' !! k = Some Directory ∧
   k ∈ resolve env <$> (output_dirs (output_train args) ++
                        output_dirs (output_test args))).
Proof.
  intros [(_ & -> & _)
         |(_ & train_files & test_files & w0 & _ & _ & -> & Hcase)]%main_cases
         Hne1 Hne2; [by left|].
  rewrite fmap_app.
  destruct Hcase as [(_ & -> & _)|[(_ & _ & -> & _)|(_ & _ & Hcase)]];
    [by left..|].
  destruct Hcase as [(e & Hrun1 & _)|(w1 & n1 & Hrun1 & Hcase)].
  { apply steps_merge_jsonl_kept in Hrun1.
    eapply (others_kept_both env _ (output_test args) _ _ _ _ w');
      [exact Hrun1|by apply others_kept_same|done..]. }
  apply steps_merge_jsonl_kept in Hrun1.
  destruct Hcase as [(e & Hrun2 & _)|(w2 & n2 & Hrun2 & -> & _)];
    apply steps_merge_jsonl_kept in Hrun2.
  - by eapply others_kept_both.
  - change (nodes (log _ (log _ w2))) with (nodes w2).
    by eapply others_kept_both.
Qed.

Lemma main_keeps_others_witness :
  main demo_env
    (mkArgs ["json_output"] "*train*.json" "*test*.json"
       deep_output ["unified_test.json"]) demo_world =
    ((main demo_env
        (mkArgs ["json_output"] "*train*.json" "*test*.json"
           deep_output ["unified_test.json"]) demo_world).1,
     Ok tt) ∧
  cwd ++ ["merged"] ≠ resolve demo_env deep_output ∧
  cwd ++ ["merged"] ≠ resolve demo_env ["unified_test.json"] ∧
  (nodes (main demo_env
            (mkArgs ["json_output"] "*train*.json" "*test*.json"
               deep_output ["unified_test.json"]) demo_world).1
     !! (cwd ++ ["merged"]) = nodes demo_world !! (cwd ++ ["merged"]) ∨
   (nodes demo_world !! (cwd ++ ["merged"]) = None ∧
    nodes (main demo_env
             (mkArgs ["json_output"] "*train*.json" "*test*.json"
                deep_output ["unified_test.json"]) demo_world).1
      !! (cwd ++ ["merged"]) = Some Directory ∧
    cwd ++ ["merged"] ∈
      resolve demo_env <$> (output_dirs deep_output ++
                            output_dirs ["unified_test.json"]))).
Proof.
  assert (main demo_env
            (mkArgs ["json_output"] "*train*.json" "*test*.json"
               deep_output ["unified_test.json"]) demo_world =
          ((main demo_env
              (mkArgs ["json_output"] "*train*.json" "*test*.json"
                 deep_output ["unified_test.json"]) demo_world).1,
           Ok tt)) as Hrun.
  { apply (run_result (main demo_env _) demo_world). by vm_compute. }
  split; [exact Hrun|]. split; [discriminate|]. split; [discriminate|].
  apply (main_keeps_others demo_env _ demo_world _ _ _ Hrun); discriminate.
Defined.

(** X17.  [main] reports only what is done: when it returns, the last two
    things it did are the two reports and nothing was printed before
    them; when it ends in an exception of any kind, it has printed
    nothing at all. *)
Theorem main_prints env args w w' r :
  main env args w = (w', r) →
  ∃ evs,
    Forall (λ ev, ¬ is_print ev) evs ∧
    match r with
    | Ok _ => ∃ line1 line2,
                trace w' = trace w ++ evs ++ [EvPrint line1; EvPrint line2]
    | Raise _ => trace w' = trace w ++ evs
    end.
Proof.
  intros [(_ & -> & ->)
         |(_ & train_files & test_files & w0 & _ & _ & -> & Hcase)]%main_cases.
  { exists []. split; [constructor|]. by rewrite app_nil_r. }
  assert (∀ evs : list event,
            Forall (λ ev, ¬ is_print ev)
              ([EvGlob (input_dir args) (train_pattern args);
                EvGlob (input_dir args) (test_pattern args)] ++ evs) ↔
            Forall (λ ev, ¬ is_print ev) evs) as Hglobs.
  { intros evs. rewrite Forall_app. split; [tauto|]. intros Hevs.
    split; [|done]. repeat constructor; by intros []. }
  assert (∀ files out evs, Forall (merge_event files out) evs →
            Forall (λ ev, ¬ is_print ev) evs) as Hmerge.
  { intros files out evs Hevs. eapply Forall_impl; [exact Hevs|].
    apply merge_event_not_print. }
  destruct Hcase as [(_ & -> & ->)|[(_ & _ & -> & ->)|(_ & _ & Hcase)]].
  - exists [EvGlob (input_dir args) (train_pattern args);
            EvGlob (input_dir args) (test_pattern args)].
    split; [by apply (Hglobs [])|]. simpl. by rewrite <-app_assoc.
  - exists [EvGlob (input_dir args) (train_pattern args);
            EvGlob (input_dir args) (test_pattern args)].
    split; [by apply (Hglobs [])|]. simpl. by rewrite <-app_assoc.
  - destruct Hcase as [(e & Hrun1 & ->)|(w1 & n1 & Hrun1 & Hcase)];
      apply steps_merge_jsonl_emits in Hrun1 as (evs1 & Htrace1 & Hevs1%Hmerge).
    { eexists. split; [by apply Hglobs|].
      rewrite Htrace1. simpl. by rewrite <-!app_assoc. }
    destruct Hcase as [(e & Hrun2 & ->)|(w2 & n2 & Hrun2 & -> & ->)];
      apply steps_merge_jsonl_emits in Hrun2 as (evs2 & Htrace2 & Hevs2%Hmerge).
    + exists ([EvGlob (input_dir args) (train_pattern args);
               EvGlob (input_dir args) (test_pattern args)] ++ evs1 ++ evs2).
      split; [apply Hglobs, Forall_app; by split|].
      rewrite Htrace2, Htrace1. simpl. by rewrite <-!app_assoc.
    + exists ([EvGlob (input_dir args) (train_pattern args);
               EvGlob (input_dir args) (test_pattern args)] ++ evs1 ++ evs2).
      split; [apply Hglobs, Forall_app; by split|].
      eexists _, _. simpl. rewrite Htrace2, Htrace1. simpl.
      by rewrite <-!app_assoc.
Qed.

Lemma main_prints_witness :
  main demo_env default_args demo_world =
    ((main demo_env default_args demo_world).1, Ok tt) ∧
  ∃ evs,
    Forall (λ ev, ¬ is_print ev) evs ∧
    ∃ line1 line2,
      trace (main demo_env default_args demo_world).1 =
        trace demo_world ++ evs ++ [EvPrint line1; EvPrint line2].
Proof.
  assert (main demo_env default_args demo_world =
            ((main demo_env default_args demo_world).1, Ok tt)) as Hrun.
  { apply (run_result (main demo_env _) demo_world). by vm_compute. }
  split; [exact Hrun|].
  apply (main_prints demo_env default_args demo_world _ _ Hrun).
Defined.

(** ** Nothing is left open *)

Section merge_closes.
Context (env : Env).
Implicit Types (w : World) (out : Path).

Lemma open_write_Raise_inv out w w' e :
  open_write env out w = (w', Raise e) → w' = log (EvOpenWrite out) w.
Proof.
  unfold open_write. run. unfold stat. simpl.
  destruct (nodes w !! resolve env out) as [[]|]; try by intros [= <-].
  destruct (nodes w !! resolve env (directory_of env out)) as [[]|];
    by intros [= <-].
Qed.

(** The loop over the files touches the buffer of the output only. *)
Lemma steps_merge_files_pending files out n :
  steps (λ w w', delete (resolve env out) (pending w') =
                 delete (resolve env out) (pending w))
        (for_each files (merge_file env out) n).
Proof.
  set (R := λ w w', delete (resolve env out) (pending w') =
                    delete (resolve env out) (pending w)).
  assert (PreOrder R) as HR.
  { split; [done|]. intros w1 w2 w3 H12 H23. unfold R in *. congruence. }
  apply steps_for_each; [done|]. intros n' file _.
  apply steps_bind; [done|by apply steps_open_read|]. intros infile.
  apply steps_for_each; [done|]. intros n'' line _.
  apply steps_merge_line; [done|]. intros w buf. unfold R. simpl.
  apply delete_insert_eq.
Qed.

End merge_closes.

(** X18.  [merge_jsonl] leaves no file open, however it ends: whether it
    returns, fails on its destination or fails on one of its inputs, the
    buffers of the open files are what they were before the call, so what
    was written has reached the output file. *)
Theorem merge_jsonl_closes_output env files out w w' r :
  merge_jsonl env files out w = (w', r) →
  pending w !! resolve env out = None →
  pending w' = pending w.
Proof.
  unfold merge_jsonl, with_open_write, finally. unfold mbind, M_bind, bind.
  destruct (mkdir env (parent out) w) as [w1 r1] eqn:Hmk.
  destruct (steps_mkdir_grows env (length (parent out)) (parent out) _ _ _ Hmk)
    as [Hpending _].
  destruct r1 as [[]|e]; [|by intros [= <- _]].
  destruct (open_write env out w1) as [w2 [[]|e]] eqn:Hopen.
  - apply open_write_Ok_inv in Hopen as ->.
    match goal with
    | |- context [for_each files ?f 0 ?w2] =>
        destruct (for_each files f 0 w2) as [w3 r3] eqn:Hloop
    end.
    apply steps_merge_files_pending in Hloop. cbn [pending] in Hloop.
    intros [= <- _] Hnone.
    assert (delete (resolve env out) (pending w3) = pending w) as Hclosed.
    { rewrite Hloop, delete_insert_eq, Hpending. by apply delete_id. }
    unfold close. destruct (pending w3 !! resolve env out) eqn:Hbuf; [done|].
    rewrite <-Hclosed. symmetry. by apply delete_id.
  - apply open_write_Raise_inv in Hopen as ->. by intros [= <- _].
Qed.

Lemma merge_jsonl_closes_output_witness :
  merge_jsonl demo_env
    [["json_output"; "train_0.json"]; ["json_output"; "train_old.json"]]
    ["unified_train.json"] demo_world =
    ((merge_jsonl demo_env
        [["json_output"; "train_0.json"]; ["json_output"; "train_old.json"]]
        ["unified_train.json"] demo_world).1,
     Raise (IsADirectoryError ["json_output"; "train_old.json"])) ∧
  pending demo_world !! resolve demo_env ["unified_train.json"] = None ∧
  pending (merge_jsonl demo_env
             [["json_output"; "train_0.json"]; ["json_output"; "train_old.json"]]
             ["unified_train.json"] demo_world).1 = pending demo_world.
Proof.
  assert (merge_jsonl demo_env
            [["json_output"; "train_0.json"]; ["json_output"; "train_old.json"]]
            ["unified_train.json"] demo_world =
          ((merge_jsonl demo_env
              [["json_output"; "train_0.json"]; ["json_output"; "train_old.json"]]
              ["unified_train.json"] demo_world).1,
           Raise (IsADirectoryError ["json_output"; "train_old.json"])))
    as Hrun.
  { apply (run_result (merge_jsonl demo_env _ _) demo_world). by vm_compute. }
  split; [exact Hrun|]. split; [reflexivity|].
  apply (merge_jsonl_closes_output demo_env _ _ demo_world _ _ Hrun).
  reflexivity.
Defined.
